(** * Contract resolution and ATM chain assembly of [IBClient]

    A shallow embedding of [magic8_companion/modules/ib_client.py]:
    [qualify_underlying_with_fallback], [qualify_option_with_fallback] and
    [get_atm_options], with the brokerage session, the connection manager,
    the clock and the open-interest fetcher taken as parameters.

    Conventions.
    - Python [int] is [Z]; Python [str] is [string].
    - A Python [float] is its exact value, a rational, or [NaN]
      (ib_async's marker for "no data") or an infinity; the quotient
      [x / 5] is rounded to the nearest binary64 value, ties to even, as
      the hardware does. Zero carries no sign.
    - Every exception is an instance of a subclass of [Exception], which is
      what [except Exception] catches.
    - A [Ticker] carries its contract, and building the
      [IBOpenInterestFetcher] does not fail. *)

From Stdlib Require Import String List ZArith QArith Qround Qabs Qpower Bool Lia Lqa.
Import ListNotations.
Open Scope string_scope.
Open Scope list_scope.
Open Scope Z_scope.

(** ** Python values *)

Record exn := mk_exn { exn_class : string; exn_msg : string }.

Inductive Outcome (A : Type) : Type :=
| Normal (a : A)
| Raise (e : exn).
Arguments Normal {A} a.
Arguments Raise {A} e.

Inductive pyfloat : Type :=
| Fin (q : Q)
| NaN
| Inf (negative : bool).

(** [bool(x)] for a float: only zero is falsy. *)
Definition truthy (x : pyfloat) : bool :=
  match x with
  | Fin q => negb (Qeq_bool q 0)
  | NaN => true
  | Inf _ => true
  end.

(** [x <= 0]; every comparison with nan is false. *)
Definition le0 (x : pyfloat) : bool :=
  match x with
  | Fin q => Qle_bool q 0
  | NaN => false
  | Inf negative => negative
  end.

(** [str(x) == 'nan'] *)
Definition str_is_nan (x : pyfloat) : bool :=
  match x with
  | Fin _ => false
  | NaN => true
  | Inf _ => false
  end.

(** [x != -1] *)
Definition ne_minus1 (x : pyfloat) : bool :=
  match x with
  | Fin q => negb (Qeq_bool q (-1 # 1))
  | NaN => true
  | Inf _ => true
  end.

(** [round(q)] on a finite float: nearest integer, ties to the even one. *)
Definition round_half_even (q : Q) : Z :=
  let f := Qfloor q in
  match Qcompare (q - inject_Z f) (1 # 2) with
  | Lt => f
  | Gt => f + 1
  | Eq => if Z.even f then f else f + 1
  end.

(** [2 ** z] *)
Definition pow2 (z : Z) : Q := (2 # 1) ^ z.

(** The binade of a non-zero [x]: the [e] with [2**e <= |x| < 2**(e+1)]. *)
Definition binade (x : Q) : Z :=
  let e0 := Z.log2 (Z.abs (Qnum x)) - Z.log2 (Zpos (Qden x)) in
  if Qle_bool (pow2 e0) (Qabs x) then e0 else e0 - 1.

(** The spacing of binary64 at [x]: 53 significant bits, and [2**-1074]
    below [2**-1022]. *)
Definition ulp (x : Q) : Q := pow2 (Z.max (binade x - 52) (-1074)).

(** The binary64 value nearest to [x], ties to the even significand. The
    quotient of a float by 5 is within binary64's range, so no overflow
    arises. *)
Definition round64 (x : Q) : Q :=
  if Qeq_bool x 0 then 0 else inject_Z (round_half_even (x / ulp x)) * ulp x.


(** [x / 5] *)
Definition div5 (x : pyfloat) : pyfloat :=
  match x with
  | Fin q => Fin (round64 (q / (5 # 1)))
  | NaN => NaN
  | Inf negative => Inf negative
  end.

Definition overflow_error : exn :=
  mk_exn "OverflowError" "cannot convert float infinity to integer".

(** [round(x)]: an [int], or [ValueError] on nan and [OverflowError] on an
    infinity. *)
Definition py_round (x : pyfloat) : Outcome Z :=
  match x with
  | Fin q => Normal (round_half_even q)
  | NaN => Raise (mk_exn "ValueError" "cannot convert float NaN to integer")
  | Inf _ => Raise overflow_error
  end.

(** [range(a, b)] *)
Definition py_range (a b : Z) : list Z :=
  map (fun k => a + Z.of_nat k) (seq 0 (Z.to_nat (b - a))).

(** [d.get(k, default)] on a dict literal, kept as its list of items. *)
Fixpoint dict_get {V : Type} (d : list (string * V)) (k : string) (default : V) : V :=
  match d with
  | [] => default
  | (k', v) :: rest => if String.eqb k' k then v else dict_get rest k default
  end.

(** [x in xs] for a list of strings. *)
Definition str_in (x : string) (xs : list string) : bool :=
  existsb (String.eqb x) xs.

(** ** ib_async data *)

Module Contract.
Record t := mk {
  secType : string;
  conId : Z;
  symbol : string;
  lastTradeDateOrContractMonth : string;
  strike : Z;
  right : string;
  exchange : string;
  currency : string;
  tradingClass : string
}.
End Contract.

(** [Index(symbol, exchange, currency)] *)
Definition Index (symbol exchange currency : string) : Contract.t :=
  Contract.mk "IND" 0 symbol EmptyString 0 EmptyString exchange currency EmptyString.

(** [Stock(symbol, exchange, currency)] *)
Definition Stock (symbol exchange currency : string) : Contract.t :=
  Contract.mk "STK" 0 symbol EmptyString 0 EmptyString exchange currency EmptyString.

(** [Option(symbol=..., lastTradeDateOrContractMonth=..., strike=...,
    right=..., exchange=..., currency=...)] *)
Definition Option (symbol lastTradeDateOrContractMonth : string) (strike : Z)
    (right exchange currency : string) : Contract.t :=
  Contract.mk "OPT" 0 symbol lastTradeDateOrContractMonth strike right exchange currency
    EmptyString.

(** [c.tradingClass = tc] *)
Definition set_tradingClass (c : Contract.t) (tc : string) : Contract.t :=
  Contract.mk (Contract.secType c) (Contract.conId c) (Contract.symbol c)
    (Contract.lastTradeDateOrContractMonth c) (Contract.strike c) (Contract.right c)
    (Contract.exchange c) (Contract.currency c) tc.

Module OptionComputation.
Record t := mk {
  impliedVol : option pyfloat;
  gamma : option pyfloat;
  delta : option pyfloat
}.
End OptionComputation.

Module Ticker.
Record t := mk {
  contract : Contract.t;
  marketPrice : pyfloat;
  close : pyfloat;
  bid : pyfloat;
  ask : pyfloat;
  impliedVolatility : option pyfloat;
  modelGreeks : option OptionComputation.t
}.
End Ticker.

(** The dict built for each option quote. *)
Module OptionData.
Record t := mk {
  symbol : string;
  underlying_symbol : string;
  conId : Z;
  strike : Z;
  right : string;
  expiry : string;
  bid : option pyfloat;
  ask : option pyfloat;
  implied_volatility : option pyfloat;
  open_interest : Z;
  gamma : option pyfloat;
  delta : option pyfloat;
  underlying_price_at_fetch : pyfloat
}.
End OptionData.

(** ** Observable events

    Every call that leaves the client, and every log or print line, is
    recorded with its answer, in the order it happens. *)

Inductive LogLevel := DEBUG | INFO | WARNING | ERROR.

Inductive Message : Type :=
| OIStreamingEnabled
| QualifiedAs (symbol_name sym_variant exchange : string)
| FailedToQualify (sym_variant exchange : string) (e : exn)
| FailedAnyCombination (symbol_name : string)
| QualifiedOptionAs (symbol_name sym_variant : string) (strike : Z) (right exchange : string)
| FailedToQualifyOption (sym_variant : string) (strike : Z) (right exchange : string) (e : exn)
| FailedAnyOptionCombination (symbol_name : string) (strike : Z) (right : string)
| CouldNotQualifyUnderlying (symbol_name : string)
| InvalidSpotPlaceholder (symbol_name : string)
| NoSpotPlaceholder (symbol_name : string)
| NoQualifiedOptions (symbol_name : string) (strikes : list Z) (expiry_date : string)
| FetchingOI (n : nat) (symbol_name : string)
| FailedToFetchOI (symbol_name : string) (e : exn)
| OIStreamingDisabled.

Inductive Event : Type :=
| EvConnect (answer : Outcome bool)
| EvQualify (descriptor : Contract.t) (answer : Outcome (list (option Contract.t)))
| EvReqTickers (contracts : list Contract.t) (answer : Outcome (list Ticker.t))
| EvSleep
| EvNow (answer : string)
| EvEnhance (records : list OptionData.t) (contracts : list Contract.t)
    (answer : Outcome (list OptionData.t))
| EvLog (level : LogLevel) (msg : Message)
| EvPrint (msg : Message).

(** ** External collaborators

    Each answers from the events so far, so a collaborator may keep any
    state it likes. [get_ib_connection] answers [true] for a live [IB]
    handle and [false] for a falsy one. [datetime_now] is
    [datetime.now().strftime('%Y%m%d')]. [enhance_options_with_oi] hands
    its records back through its return value. *)

Record Session := mk_Session {
  get_ib_connection : list Event -> Outcome bool;
  qualifyContractsAsync : list Event -> Contract.t -> Outcome (list (option Contract.t));
  reqTickersAsync : list Event -> list Contract.t -> Outcome (list Ticker.t);
  datetime_now : list Event -> string;
  enhance_options_with_oi :
    list Event -> list OptionData.t -> list Contract.t -> Outcome (list OptionData.t)
}.

(** ** The client's state and the monad of its methods *)

Record State := mk_State {
  trace : list Event;
  oi_fetcher : bool          (* [self.oi_fetcher] is set *)
}.

Definition M (A : Type) : Type := State -> Outcome A * State.

Definition ret {A : Type} (a : A) : M A := fun st => (Normal a, st).

Definition bind {A B : Type} (m : M A) (k : A -> M B) : M B :=
  fun st =>
    match m st with
    | (Normal a, st') => k a st'
    | (Raise e, st') => (Raise e, st')
    end.

Definition raise {A : Type} (e : exn) : M A := fun st => (Raise e, st).

(** [try: body / except Exception as e: handler] *)
Definition try_except {A : Type} (body : M A) (handler : exn -> M A) : M A :=
  fun st =>
    match body st with
    | (Normal a, st') => (Normal a, st')
    | (Raise e, st') => handler e st'
    end.

Declare Scope monad_scope.
Delimit Scope monad_scope with monad.
Notation "x <- c ;; k" := (bind c (fun x => k))
  (at level 61, c at next level, right associativity) : monad_scope.
Notation "c ;;; k" := (bind c (fun _ => k))
  (at level 61, right associativity) : monad_scope.
Open Scope monad_scope.

Definition emit (e : Event) : M unit :=
  fun st => (Normal tt, mk_State (trace st ++ [e]) (oi_fetcher st)).

Definition log (level : LogLevel) (msg : Message) : M unit := emit (EvLog level msg).

Definition print (msg : Message) : M unit := emit (EvPrint msg).

(** An awaited call: the answer is recorded, and a raised one propagates. *)
Definition await {A : Type} (answer : list Event -> Outcome A)
    (ev : Outcome A -> Event) : M A :=
  fun st =>
    let r := answer (trace st) in
    (r, mk_State (trace st ++ [ev r]) (oi_fetcher st)).

Definition get_oi_fetcher : M bool := fun st => (Normal (oi_fetcher st), st).

Definition set_oi_fetcher (b : bool) : M unit :=
  fun st => (Normal tt, mk_State (trace st) b).

(** For loop whose body may [return]: [Some v] leaves the loop with [v],
    [None] goes on to the next item. *)
Fixpoint first_success {A B : Type} (body : A -> M (option B)) (items : list A)
    : M (option B) :=
  match items with
  | [] => ret None
  | x :: rest =>
      r <- body x ;;
      match r with
      | Some v => ret (Some v)
      | None => first_success body rest
      end
  end.

(** [qualified[0]] when [qualified] is non-empty; the attribute access on a
    [None] entry raises. *)
Definition attr_of_entry (q0 : option Contract.t) : M Contract.t :=
  match q0 with
  | Some c => ret c
  | None => raise (mk_exn "AttributeError" "'NoneType' object has no attribute 'conId'")
  end.

Module Underlying.

Definition symbol_variations (symbol_name : string) : list string :=
  dict_get
    [ ("SPX", ["SPX"; "SPXW"]);
      ("RUT", ["RUT"]);
      ("SPY", ["SPY"]);
      ("QQQ", ["QQQ"]);
      ("IWM", ["IWM"]);
      ("VIX", ["VIX"]);
      ("NDX", ["NDX"]) ]
    symbol_name [symbol_name].

Definition exchange_map : list (string * list string) :=
  [ ("SPX", ["CBOE"; "SMART"]);
    ("SPXW", ["CBOE"; "SMART"]);
    ("RUT", ["SMART"; "CBOE"; "RUSSELL"]);
    ("SPY", ["SMART"; "CBOE"; "ARCA"; "BATS"]);
    ("QQQ", ["SMART"; "NASDAQ"; "CBOE"]);
    ("IWM", ["SMART"; "ARCA"; "CBOE"]);
    ("VIX", ["CBOE"; "SMART"]);
    ("NDX", ["NASDAQ"; "SMART"]) ].

Definition exchanges (sym_variant : string) : list string :=
  dict_get exchange_map sym_variant ["SMART"].

(** The instrument built for one attempt. *)
Definition descriptor (symbol_name sym_variant exchange : string) : Contract.t :=
  if str_in symbol_name ["SPX"; "RUT"; "VIX"; "NDX"]
  then Index sym_variant exchange "USD"
  else Stock sym_variant exchange "USD".

End Underlying.

Module Opt.

Definition symbol_variations (symbol_name : string) : list string :=
  dict_get
    [ ("SPX", ["SPXW"; "SPX"]);
      ("RUT", ["RUT"]);
      ("SPY", ["SPY"]);
      ("QQQ", ["QQQ"]);
      ("IWM", ["IWM"]);
      ("NDX", ["NDX"]) ]
    symbol_name [symbol_name].

Definition exchange_map : list (string * list string) :=
  [ ("SPX", ["SMART"; "CBOE"]);
    ("SPXW", ["SMART"; "CBOE"]);
    ("RUT", ["SMART"; "CBOE"; "RUSSELL"]);
    ("SPY", ["SMART"; "CBOE"; "ARCA"; "BATS"; "AMEX"; "ISE"]);
    ("QQQ", ["SMART"; "NASDAQ"; "CBOE"; "ARCA"]);
    ("IWM", ["SMART"; "ARCA"; "CBOE"]);
    ("NDX", ["SMART"; "NASDAQ"]) ].

Definition exchanges (sym_variant : string) : list string :=
  dict_get exchange_map sym_variant ["SMART"].

(** [bool(trading_class)]: [None] and the empty string are falsy. *)
Definition hint_given (trading_class : option string) : option string :=
  match trading_class with
  | Some tc => if String.eqb tc EmptyString then None else Some tc
  | None => None
  end.

(** The option contract built for one attempt, trading class included. *)
Definition descriptor (expiry_date : string) (strike : Z) (right : string)
    (trading_class : option string) (sym_variant exchange : string) : Contract.t :=
  let opt_contract := Option sym_variant expiry_date strike right exchange "USD" in
  match hint_given trading_class with
  | Some tc => set_tradingClass opt_contract tc
  | None =>
      if String.eqb sym_variant "SPXW"
      then set_tradingClass opt_contract "SPXW"
      else opt_contract
  end.

End Opt.

(** ** The methods of [IBClient] *)

Section Client.

Variable sess : Session.
Variable enable_oi_streaming : bool.      (* [settings.enable_oi_streaming] *)

Definition _ensure_connected : M unit :=
  ib <- await (get_ib_connection sess) EvConnect ;;
  if negb ib
  then raise (mk_exn "ConnectionError" "Failed to connect to IB or not currently connected.")
  else
    fetcher <- get_oi_fetcher ;;
    if enable_oi_streaming && negb fetcher
    then set_oi_fetcher true ;;; log INFO OIStreamingEnabled
    else ret tt.

(** One pass through the [try] of [qualify_underlying_with_fallback]. *)
Definition attempt_underlying (symbol_name sym_variant exchange : string)
    : M (option Contract.t) :=
  try_except
    (let underlying_contract := Underlying.descriptor symbol_name sym_variant exchange in
     qualified <- await (fun h => qualifyContractsAsync sess h underlying_contract)
                        (EvQualify underlying_contract) ;;
     match qualified with
     | [] => ret None
     | q0 :: _ =>
         c <- attr_of_entry q0 ;;
         if Contract.conId c =? 0
         then ret None
         else log INFO (QualifiedAs symbol_name sym_variant exchange) ;;; ret (Some c)
     end)
    (fun e => log DEBUG (FailedToQualify sym_variant exchange e) ;;; ret None).

Definition qualify_underlying_with_fallback (symbol_name : string)
    : M (option Contract.t) :=
  _ensure_connected ;;;
  r <- first_success
         (fun sym_variant =>
            first_success (attempt_underlying symbol_name sym_variant)
                          (Underlying.exchanges sym_variant))
         (Underlying.symbol_variations symbol_name) ;;
  match r with
  | Some c => ret (Some c)
  | None => log ERROR (FailedAnyCombination symbol_name) ;;; ret None
  end.

(** One pass through the [try] of [qualify_option_with_fallback]. *)
Definition attempt_option (symbol_name expiry_date : string) (strike : Z) (right : string)
    (trading_class : option string) (sym_variant exchange : string)
    : M (option Contract.t) :=
  try_except
    (let opt_contract :=
       Opt.descriptor expiry_date strike right trading_class sym_variant exchange in
     qualified <- await (fun h => qualifyContractsAsync sess h opt_contract)
                        (EvQualify opt_contract) ;;
     match qualified with
     | [] => ret None
     | q0 :: _ =>
         c <- attr_of_entry q0 ;;
         if Contract.conId c =? 0
         then ret None
         else
           (if negb (String.eqb sym_variant symbol_name) || negb (String.eqb exchange "CBOE")
            then log INFO (QualifiedOptionAs symbol_name sym_variant strike right exchange)
            else ret tt) ;;;
           ret (Some c)
     end)
    (fun e => log DEBUG (FailedToQualifyOption sym_variant strike right exchange e) ;;;
              ret None).

Definition qualify_option_with_fallback (symbol_name expiry_date : string) (strike : Z)
    (right : string) (trading_class : option string) : M (option Contract.t) :=
  _ensure_connected ;;;
  r <- first_success
         (fun sym_variant =>
            first_success
              (attempt_option symbol_name expiry_date strike right trading_class sym_variant)
              (Opt.exchanges sym_variant))
         (Opt.symbol_variations symbol_name) ;;
  match r with
  | Some c => ret (Some c)
  | None => log WARNING (FailedAnyOptionCombination symbol_name strike right) ;;; ret None
  end.

(** *** [get_atm_options], block by block *)

(** Lines 214-222: the spot price, or the placeholder 5000. *)
Definition spot_price_of (symbol_name : string) (tickers : list Ticker.t) : M pyfloat :=
  match tickers with
  | t0 :: _ =>
      if truthy (Ticker.marketPrice t0) || truthy (Ticker.close t0)
      then
        let spot_price :=
          if truthy (Ticker.marketPrice t0) then Ticker.marketPrice t0 else Ticker.close t0 in
        if negb (truthy spot_price) || le0 spot_price || str_is_nan spot_price
        then print (InvalidSpotPlaceholder symbol_name) ;;; ret (Fin (5000 # 1))
        else ret spot_price
      else print (NoSpotPlaceholder symbol_name) ;;; ret (Fin (5000 # 1))
  | [] => print (NoSpotPlaceholder symbol_name) ;;; ret (Fin (5000 # 1))
  end.

(** Lines 225-230. *)
Definition atm_strike_of (symbol_name : string) (spot_price : pyfloat) : Outcome Z :=
  if str_in symbol_name ["SPX"; "SPXW"; "NDX"]
  then match py_round (div5 spot_price) with
       | Normal n => Normal (n * 5)
       | Raise e => Raise e
       end
  else if String.eqb symbol_name "SPY"
  then py_round spot_price
  else match py_round (div5 spot_price) with
       | Normal n => Normal (n * 5)
       | Raise e => Raise e
       end.

(** Line 233. *)
Definition strike_increment_of (symbol_name : string) : Z :=
  if str_in symbol_name ["SPX"; "SPXW"; "RUT"; "NDX"] then 5 else 1.

(** Lines 235-236. *)
Definition strikes_to_check (atm_strike strike_increment num_strikes_each_side : Z) : list Z :=
  map (fun i => atm_strike + i * strike_increment)
      (py_range (- num_strikes_each_side) (num_strikes_each_side + 1)).

Definition lift_outcome {A : Type} (o : Outcome A) : M A := fun st => (o, st).

(** Lines 241-248: every strike, call before put; the contracts that
    qualified are appended in that order. *)
Fixpoint qualify_rights (symbol_name expiry_date : string) (strike : Z)
    (trading_class : option string) (rights : list string)
    (qualified_options : list Contract.t) : M (list Contract.t) :=
  match rights with
  | [] => ret qualified_options
  | r :: rest =>
      qualified_opt <-
        qualify_option_with_fallback symbol_name expiry_date strike r trading_class ;;
      qualify_rights symbol_name expiry_date strike trading_class rest
        (match qualified_opt with
         | Some c => qualified_options ++ [c]
         | None => qualified_options
         end)
  end.

Fixpoint qualify_strikes (symbol_name expiry_date : string)
    (trading_class : option string) (strikes : list Z)
    (qualified_options : list Contract.t) : M (list Contract.t) :=
  match strikes with
  | [] => ret qualified_options
  | strike :: rest =>
      qualified_options' <-
        qualify_rights symbol_name expiry_date strike trading_class ["C"; "P"]
          qualified_options ;;
      qualify_strikes symbol_name expiry_date trading_class rest qualified_options'
  end.

(** [v is not None and not str(v) == 'nan'] *)
Definition numeric (v : option pyfloat) : bool :=
  match v with
  | Some x => negb (str_is_nan x)
  | None => false
  end.

(** Lines 264-268. *)
Definition iv_of (ticker : Ticker.t) : option pyfloat :=
  match Ticker.modelGreeks ticker with
  | Some g =>
      if numeric (OptionComputation.impliedVol g)
      then OptionComputation.impliedVol g
      else if numeric (Ticker.impliedVolatility ticker)
           then Ticker.impliedVolatility ticker
           else None
  | None =>
      if numeric (Ticker.impliedVolatility ticker)
      then Ticker.impliedVolatility ticker
      else None
  end.

(** Lines 273-279, one greek. *)
Definition greek_of (field : OptionComputation.t -> option pyfloat) (ticker : Ticker.t)
    : option pyfloat :=
  match Ticker.modelGreeks ticker with
  | Some g => if numeric (field g) then field g else None
  | None => None
  end.

(** Lines 281-295. *)
Definition option_data (symbol_name : string) (spot_price : pyfloat) (ticker : Ticker.t)
    : OptionData.t :=
  let contract := Ticker.contract ticker in
  let open_interest := 0 in
  OptionData.mk
    symbol_name
    (Contract.symbol contract)
    (Contract.conId contract)
    (Contract.strike contract)
    (Contract.right contract)
    (Contract.lastTradeDateOrContractMonth contract)
    (if ne_minus1 (Ticker.bid ticker) then Some (Ticker.bid ticker) else None)
    (if ne_minus1 (Ticker.ask ticker) then Some (Ticker.ask ticker) else None)
    (iv_of ticker)
    open_interest
    (greek_of OptionComputation.gamma ticker)
    (greek_of OptionComputation.delta ticker)
    spot_price.

(** Lines 204-298 for one symbol: [None] is the [continue] of the loop,
    otherwise [symbol_options_data] and [symbol_contracts]. *)
Definition fetch_symbol_options (expiry_date symbol_name : string)
    : M (option (list OptionData.t * list Contract.t)) :=
  underlying <- qualify_underlying_with_fallback symbol_name ;;
  match underlying with
  | None => log ERROR (CouldNotQualifyUnderlying symbol_name) ;;; ret None
  | Some underlying_contract =>
      tickers <- await (fun h => reqTickersAsync sess h [underlying_contract])
                       (EvReqTickers [underlying_contract]) ;;
      emit EvSleep ;;;
      spot_price <- spot_price_of symbol_name tickers ;;
      atm_strike <- lift_outcome (atm_strike_of symbol_name spot_price) ;;
      let strike_increment := strike_increment_of symbol_name in
      let num_strikes_each_side := 20 in
      let strikes := strikes_to_check atm_strike strike_increment num_strikes_each_side in
      qualified_options <-
        qualify_strikes symbol_name expiry_date
          (Some (Contract.tradingClass underlying_contract)) strikes [] ;;
      match qualified_options with
      | [] => print (NoQualifiedOptions symbol_name strikes expiry_date) ;;; ret None
      | _ :: _ =>
          tickers_for_options <- await (fun h => reqTickersAsync sess h qualified_options)
                                       (EvReqTickers qualified_options) ;;
          ret (Some (map (option_data symbol_name spot_price) tickers_for_options,
                     map Ticker.contract tickers_for_options))
      end
  end.

(** Lines 300-312. *)
Definition enhance_with_oi (symbol_name : string) (symbol_options_data : list OptionData.t)
    (symbol_contracts : list Contract.t) : M (list OptionData.t) :=
  fetcher <- get_oi_fetcher ;;
  if fetcher && enable_oi_streaming && negb (Nat.eqb (length symbol_options_data) 0)
  then
    try_except
      (log INFO (FetchingOI (length symbol_contracts) symbol_name) ;;;
       await (fun h => enhance_options_with_oi sess h symbol_options_data symbol_contracts)
             (EvEnhance symbol_options_data symbol_contracts))
      (fun e => log ERROR (FailedToFetchOI symbol_name e) ;;; ret symbol_options_data)
  else
    (if negb enable_oi_streaming then log INFO OIStreamingDisabled else ret tt) ;;;
    ret symbol_options_data.

(** The body of the loop over [symbols]: what the symbol adds to
    [options_data]. *)
Definition symbol_records (expiry_date symbol_name : string) : M (list OptionData.t) :=
  fetched <- fetch_symbol_options expiry_date symbol_name ;;
  match fetched with
  | None => ret []
  | Some (symbol_options_data, symbol_contracts) =>
      enhance_with_oi symbol_name symbol_options_data symbol_contracts
  end.

Fixpoint for_symbols (expiry_date : string) (symbols : list string)
    (options_data : list OptionData.t) : M (list OptionData.t) :=
  match symbols with
  | [] => ret options_data
  | symbol_name :: rest =>
      recs <- symbol_records expiry_date symbol_name ;;
      for_symbols expiry_date rest (options_data ++ recs)
  end.

(** [datetime.now().strftime('%Y%m%d')] *)
Definition today : M string :=
  fun st =>
    let d := datetime_now sess (trace st) in
    (Normal d, mk_State (trace st ++ [EvNow d]) (oi_fetcher st)).

Definition get_atm_options (symbols : list string) (days_to_expiry : Z)
    : M (list OptionData.t) :=
  _ensure_connected ;;;
  let options_data := [] in
  match symbols with
  | [] => ret options_data
  | _ :: _ =>
      expiry_date <- today ;;
      for_symbols expiry_date symbols options_data
  end.

End Client.

(** ** Reading a trace *)

Definition Answer : Type := Outcome (list (option Contract.t)).

(** What [if qualified and qualified[0].conId] lets through. *)
Definition accepted (answer : Answer) : option Contract.t :=
  match answer with
  | Normal (Some c :: _) => if Contract.conId c =? 0 then None else Some c
  | _ => None
  end.

(** The qualification attempts among some events, in order. *)
Definition attempts (evs : list Event) : list (Contract.t * Answer) :=
  flat_map (fun ev => match ev with
                      | EvQualify d a => [(d, a)]
                      | _ => []
                      end) evs.

(** The pairs the double loop goes through: variants outside, the
    exchanges of each variant inside. *)
Definition combinations (variants : list string) (exchanges : string -> list string)
    : list (string * string) :=
  flat_map (fun v => map (pair v) (exchanges v)) variants.

Definition underlying_candidates (symbol_name : string) : list Contract.t :=
  map (fun ve => Underlying.descriptor symbol_name (fst ve) (snd ve))
      (combinations (Underlying.symbol_variations symbol_name) Underlying.exchanges).

Definition option_candidates (symbol_name expiry_date : string) (strike : Z)
    (right : string) (trading_class : option string) : list Contract.t :=
  map (fun ve => Opt.descriptor expiry_date strike right trading_class (fst ve) (snd ve))
      (combinations (Opt.symbol_variations symbol_name) Opt.exchanges).

(** A search through [candidates] that stops at the first accepted answer. *)
Inductive search_log : list Contract.t -> list (Contract.t * Answer) -> option Contract.t -> Prop :=
| search_exhausted : search_log [] [] None
| search_hit d ds a c :
    accepted a = Some c -> search_log (d :: ds) [(d, a)] (Some c)
| search_miss d ds a log r :
    accepted a = None -> search_log ds log r -> search_log (d :: ds) ((d, a) :: log) r.

Definition connection_error : exn :=
  mk_exn "ConnectionError" "Failed to connect to IB or not currently connected.".

(** Line 216: the price the spot lookup goes by. *)
Definition quoted_price (t0 : Ticker.t) : pyfloat :=
  if truthy (Ticker.marketPrice t0) then Ticker.marketPrice t0 else Ticker.close t0.

(** The events right after which [get_atm_options] lets [e] out: a
    connection check that failed, a quote request that raised, or the spot
    quote and the pause after it when the quoted price is plus infinity, on
    which [round] raises. *)
Inductive escalates : list Event -> exn -> Prop :=
| escalates_no_handle : escalates [EvConnect (Normal false)] connection_error
| escalates_manager e : escalates [EvConnect (Raise e)] e
| escalates_quote contracts e : escalates [EvReqTickers contracts (Raise e)] e
| escalates_infinite_spot contracts t0 rest :
    quoted_price t0 = Inf false ->
    escalates [EvReqTickers contracts (Normal (t0 :: rest)); EvSleep] overflow_error.

(** Every option contract submitted for qualification expires on [d]. *)
Definition option_expiry_is (d : string) (ev : Event) : Prop :=
  match ev with
  | EvQualify c _ =>
      Contract.secType c = "OPT" -> Contract.lastTradeDateOrContractMonth c = d
  | _ => True
  end.

(** ** Scripted sessions, for running the client on concrete inputs *)

Module Mock.

(** The contract the broker hands back for a request it accepts. *)
Definition resolved (d : Contract.t) : Contract.t :=
  Contract.mk (Contract.secType d) 4242 (Contract.symbol d)
    (Contract.lastTradeDateOrContractMonth d) (Contract.strike d) (Contract.right d)
    (Contract.exchange d) (Contract.currency d) (Contract.tradingClass d).

Definition quote (c : Contract.t) : Ticker.t :=
  Ticker.mk c (Fin (5000 # 1)) (Fin (4990 # 1)) (Fin (3 # 2)) (Fin (-1 # 1)) None None.

Definition timeout : exn := mk_exn "TimeoutError" "timed out".

Definition session (qualify : Contract.t -> Answer)
    (quotes : list Contract.t -> Outcome (list Ticker.t)) : Session :=
  mk_Session
    (fun _ => Normal true)
    (fun _ d => qualify d)
    (fun _ cs => quotes cs)
    (fun _ => "20250117")
    (fun _ _ _ => Raise timeout).

(** Accepts a request on every exchange but CBOE. *)
Definition off_cboe (d : Contract.t) : Answer :=
  if String.eqb (Contract.exchange d) "CBOE" then Normal [] else Normal [Some (resolved d)].

(** Rejects every request, by turns with an empty answer and an error. *)
Definition reject (d : Contract.t) : Answer :=
  if String.eqb (Contract.exchange d) "SMART" then Normal [] else Raise timeout.

(** Knows nothing of VIX. *)
Definition no_vix (d : Contract.t) : Answer :=
  if String.eqb (Contract.symbol d) "VIX" then Normal [] else Normal [Some (resolved d)].

(** Lists the weekly class at the 5000 strike only. *)
Definition weekly_at_5000 (d : Contract.t) : Answer :=
  if String.eqb (Contract.symbol d) "SPXW" && negb (Contract.strike d =? 5000)
  then Normal []
  else Normal [Some (resolved d)].

Definition quotes_ok (cs : list Contract.t) : Outcome (list Ticker.t) :=
  Normal (map quote cs).

Definition quotes_fail (cs : list Contract.t) : Outcome (list Ticker.t) :=
  Raise timeout.

Definition start : State := mk_State [] false.

Definition priced (p : pyfloat) : Ticker.t :=
  Ticker.mk (Index "SPX" "CBOE" "USD") p NaN NaN NaN None None.


End Mock.

(** ** Specifications used in the proofs *)

(** [body] makes one qualification attempt, for [d], and returns what the
    answer lets through; it never raises. *)
Definition one_attempt (sess : Session) (body : M (option Contract.t)) (d : Contract.t)
    : Prop :=
  forall st, exists st' evs,
    body st = (Normal (accepted (qualifyContractsAsync sess (trace st) d)), st') /\
    trace st' = trace st ++ evs /\
    attempts evs = [(d, qualifyContractsAsync sess (trace st) d)].

(** The answer recorded for a request is one the session gave to it. *)
Definition answered_by (sess : Session) (da : Contract.t * Answer) : Prop :=
  exists h, snd da = qualifyContractsAsync sess h (fst da).

Definition rejected (da : Contract.t * Answer) : Prop := accepted (snd da) = None.

(** [m] only appends events, and each of them satisfies [P]. *)
Definition emits (P : Event -> Prop) {A : Type} (m : M A) : Prop :=
  forall st r st',
    m st = (r, st') ->
    exists evs, trace st' = trace st ++ evs /\ Forall P evs.

(** Moreover an exception leaves [m] only right after events that
    escalate it. *)
Definition contained (P : Event -> Prop) {A : Type} (m : M A) : Prop :=
  forall st r st',
    m st = (r, st') ->
    exists evs,
      trace st' = trace st ++ evs /\
      Forall P evs /\
      match r with
      | Normal _ => True
      | Raise e => exists earlier last, evs = earlier ++ last /\ escalates last e
      end.

(** No price to go by: no ticker at all, or a price that is non-positive
    or not a number. *)
Definition unusable_spot (tickers : list Ticker.t) : Prop :=
  match tickers with
  | [] => True
  | t0 :: _ => le0 (quoted_price t0) = true \/ str_is_nan (quoted_price t0) = true
  end.

(** Lines 208-230 in one piece: the spot quote, the pause, the spot price
    and the strike at the money, followed by [k]. *)
Definition spot_and_strike {B : Type} (sess : Session) (symbol_name : string)
    (contracts : list Contract.t) (k : pyfloat -> Z -> M B) : M B :=
  tickers <- await (fun h => reqTickersAsync sess h contracts) (EvReqTickers contracts) ;;
  emit EvSleep ;;;
  spot_price <- spot_price_of symbol_name tickers ;;
  atm_strike <- lift_outcome (atm_strike_of symbol_name spot_price) ;;
  k spot_price atm_strike.

(** Lines 233-298 for one symbol, from the ladder to the records. *)
Definition options_around (sess : Session) (enable_oi_streaming : bool)
    (expiry_date symbol_name : string) (underlying_contract : Contract.t)
    (spot_price : pyfloat) (atm_strike : Z)
    : M (option (list OptionData.t * list Contract.t)) :=
  let strike_increment := strike_increment_of symbol_name in
  let num_strikes_each_side := 20 in
  let strikes := strikes_to_check atm_strike strike_increment num_strikes_each_side in
  qualified_options <-
    qualify_strikes sess enable_oi_streaming symbol_name expiry_date
      (Some (Contract.tradingClass underlying_contract)) strikes [] ;;
  match qualified_options with
  | [] => print (NoQualifiedOptions symbol_name strikes expiry_date) ;;; ret None
  | _ :: _ =>
      tickers_for_options <- await (fun h => reqTickersAsync sess h qualified_options)
                                   (EvReqTickers qualified_options) ;;
      ret (Some (map (option_data symbol_name spot_price) tickers_for_options,
                 map Ticker.contract tickers_for_options))
  end.

(** ** What a call returns when the session answers the same way throughout *)

(** The connection is live and no answer depends on what was asked
    before. *)
Definition steady (sess : Session) : Prop :=
  (forall h, get_ib_connection sess h = Normal true) /\
  (forall h d, qualifyContractsAsync sess h d = qualifyContractsAsync sess [] d) /\
  (forall h cs, reqTickersAsync sess h cs = reqTickersAsync sess [] cs) /\
  (forall h, datetime_now sess h = datetime_now sess []) /\
  (forall h recs cs,
      enhance_options_with_oi sess h recs cs = enhance_options_with_oi sess [] recs cs).

(** The first of [candidates] whose answer is let through. *)
Fixpoint first_accepted (answer : Contract.t -> Answer) (candidates : list Contract.t)
    : option Contract.t :=
  match candidates with
  | [] => None
  | d :: rest =>
      match accepted (answer d) with
      | Some c => Some c
      | None => first_accepted answer rest
      end
  end.

(** The spot price lines 214-222 settle on. *)
Definition spot_of (tickers : list Ticker.t) : pyfloat :=
  match tickers with
  | t0 :: _ =>
      if le0 (quoted_price t0) || str_is_nan (quoted_price t0)
      then Fin (5000 # 1)
      else quoted_price t0
  | [] => Fin (5000 # 1)
  end.

Section Expected.

Variable sess : Session.
Variable enable_oi_streaming : bool.
Variable expiry_date : string.

(** The option contracts of the ladder around [atm_strike]: for each
    strike the call, then the put, each under the first combination the
    session accepts. *)
Definition expected_contracts (symbol_name trading_class : string) (atm_strike : Z)
    : list Contract.t :=
  flat_map
    (fun strike =>
       flat_map
         (fun right =>
            match first_accepted (qualifyContractsAsync sess [])
                    (option_candidates symbol_name expiry_date strike right
                       (Some trading_class)) with
            | Some c => [c]
            | None => []
            end)
         ["C"; "P"])
    (strikes_to_check atm_strike (strike_increment_of symbol_name) 20).

(** What the quotes of one symbol give: nothing when the underlying or
    every option is turned down, otherwise one record per option quote. *)
Definition expected_fetch (symbol_name : string)
    : Outcome (option (list OptionData.t * list Contract.t)) :=
  match first_accepted (qualifyContractsAsync sess []) (underlying_candidates symbol_name) with
  | None => Normal None
  | Some underlying_contract =>
      match reqTickersAsync sess [] [underlying_contract] with
      | Raise e => Raise e
      | Normal tickers =>
          let spot_price := spot_of tickers in
          match atm_strike_of symbol_name spot_price with
          | Raise e => Raise e
          | Normal atm_strike =>
              match expected_contracts symbol_name (Contract.tradingClass underlying_contract)
                      atm_strike with
              | [] => Normal None
              | c :: cs =>
                  match reqTickersAsync sess [] (c :: cs) with
                  | Raise e => Raise e
                  | Normal quotes =>
                      Normal (Some (map (option_data symbol_name spot_price) quotes,
                                    map Ticker.contract quotes))
                  end
              end
          end
      end
  end.

(** What one symbol adds to the result. *)
Definition expected_records (symbol_name : string) : Outcome (list OptionData.t) :=
  match expected_fetch symbol_name with
  | Raise e => Raise e
  | Normal None => Normal []
  | Normal (Some (data, contracts)) =>
      if enable_oi_streaming && negb (Nat.eqb (length data) 0)
      then match enhance_options_with_oi sess [] data contracts with
           | Normal enhanced => Normal enhanced
           | Raise _ => Normal data
           end
      else Normal data
  end.

(** What the call returns for [symbols]. *)
Fixpoint expected_result (symbols : list string) : Outcome (list OptionData.t) :=
  match symbols with
  | [] => Normal []
  | symbol_name :: rest =>
      match expected_records symbol_name with
      | Raise e => Raise e
      | Normal recs =>
          match expected_result rest with
          | Raise e => Raise e
          | Normal later => Normal (recs ++ later)
          end
      end
  end.

End Expected.

(** What one entry of [symbols] adds to the result: the records built
    from the quotes of its options, all with the one spot price, or what
    the open-interest call made of them. *)
Definition run_of (sess : Session) (symbol_name : string) (recs : list OptionData.t) : Prop :=
  exists spot_price tickers,
    let data := map (option_data symbol_name spot_price) tickers in
    recs = data \/
    exists h, enhance_options_with_oi sess h data (map Ticker.contract tickers) = Normal recs.

(** [recs] is one such run per entry of [symbols], in their order. *)
Inductive entry_runs (sess : Session) : list string -> list OptionData.t -> Prop :=
| entry_runs_nil : entry_runs sess [] []
| entry_runs_cons s rest recs_s recs_rest :
    run_of sess s recs_s ->
    entry_runs sess rest recs_rest ->
    entry_runs sess (s :: rest) (recs_s ++ recs_rest).

(** [acc] put in front of what [run] returns. *)
Definition prefixed (acc : list OptionData.t) (run : Outcome (list OptionData.t) * State)
    : Outcome (list OptionData.t) * State :=
  match run with
  | (Normal later, st') => (Normal (acc ++ later), st')
  | (Raise e, st') => (Raise e, st')
  end.

(** [m] leaves a fetcher that is set in place. *)
Definition keeps_fetcher {A : Type} (m : M A) : Prop :=
  forall st r st', m st = (r, st') -> oi_fetcher st = true -> oi_fetcher st' = true.

(** ** [get_positions]

    An entry of [ib.positions()]. [multiplier] is [pos.contract.multiplier],
    a string, kept beside the contract; [ib.positions()] reads the
    positions the session holds and [int] is Python's, both taken as
    parameters. *)

Module Position.
Record t := mk {
  contract : Contract.t;
  multiplier : string;
  position : pyfloat;
  avgCost : pyfloat
}.
End Position.

(** The dict built for each option position. *)
Module PositionData.
Record t := mk {
  symbol : string;
  conId : Z;
  strike : Z;
  right : string;
  expiry : string;
  multiplier : Z;
  quantity : pyfloat;
  average_cost : pyfloat
}.
End PositionData.

(** Lines 57-72: the dict of one option position, [m] being what the
    [multiplier] entry evaluates to. *)
Definition position_data (pos : Position.t) (m : Z) : PositionData.t :=
  let contract := Position.contract pos in
  PositionData.mk (Contract.symbol contract) (Contract.conId contract)
    (Contract.strike contract) (Contract.right contract)
    (Contract.lastTradeDateOrContractMonth contract) m
    (Position.position pos) (Position.avgCost pos).

Section Positions.

Variable sess : Session.
Variable enable_oi_streaming : bool.
Variable ib_positions : list Event -> list Position.t.   (* [ib.positions()] *)
Variable py_int : string -> Outcome Z.                    (* [int(s)] *)

(** [int(contract.multiplier) if contract.multiplier else 100] *)
Definition multiplier_of (pos : Position.t) : Outcome Z :=
  if String.eqb (Position.multiplier pos) EmptyString
  then Normal 100
  else py_int (Position.multiplier pos).

(** Lines 54-72. *)
Fixpoint for_positions (positions : list Position.t) (positions_data : list PositionData.t)
    : Outcome (list PositionData.t) :=
  match positions with
  | [] => Normal positions_data
  | pos :: rest =>
      let contract := Position.contract pos in
      if String.eqb (Contract.secType contract) "OPT"
      then
        match multiplier_of pos with
        | Normal multiplier =>
            for_positions rest (positions_data ++ [position_data pos multiplier])
        | Raise e => Raise e
        end
      else for_positions rest positions_data
  end.

Definition get_positions : M (list PositionData.t) :=
  _ensure_connected sess enable_oi_streaming ;;;
  fun st => (for_positions (ib_positions (trace st)) [], st).

End Positions.

Definition is_option_position (pos : Position.t) : bool :=
  String.eqb (Contract.secType (Position.contract pos)) "OPT".

(** ** Reading the result *)

Definition positive (x : pyfloat) : Prop :=
  match x with
  | Fin q => (0 < q)%Q
  | NaN | Inf _ => False
  end.

Definition not_nan (v : option pyfloat) : Prop := v <> Some NaN.

Definition not_sentinel (v : option pyfloat) : Prop :=
  forall q, v = Some (Fin q) -> ~ (q == -1 # 1)%Q.

(** A record as lines 261-298 build it for [symbol_name]. *)
Definition built_for (symbol_name : string) (r : OptionData.t) : Prop :=
  exists spot_price ticker,
    r = option_data symbol_name spot_price ticker /\ positive spot_price.

(** [recs] is one run of records per symbol, in the order of [symbols]. *)
Inductive grouped : list string -> list OptionData.t -> Prop :=
| grouped_nil : grouped [] []
| grouped_cons s rest recs_s recs_rest :
    Forall (built_for s) recs_s ->
    grouped rest recs_rest ->
    grouped (s :: rest) (recs_s ++ recs_rest).

Module MockPositions.

Definition held : list Position.t :=
  [ Position.mk (Stock "SPY" "SMART" "USD") EmptyString (Fin (10 # 1)) (Fin (590 # 1));
    Position.mk (Mock.resolved (Option "SPX" "20250117" 5000 "C" "SMART" "USD")) "100"
                (Fin (2 # 1)) (Fin (1250 # 1));
    Position.mk (Mock.resolved (Option "SPY" "20250117" 590 "P" "SMART" "USD")) EmptyString
                (Fin (-1 # 1)) (Fin (310 # 1)) ].

(** Reads "100" and nothing else. *)
Definition int_100 (s : string) : Outcome Z :=
  if String.eqb s "100" then Normal 100
  else Raise (mk_exn "ValueError" "invalid literal for int() with base 10").

End MockPositions.

(** ** Leaving the fetcher alone *)

Definition not_enhance (ev : Event) : Prop :=
  match ev with
  | EvEnhance _ _ _ => False
  | _ => True
  end.

(** [m] neither touches [self.oi_fetcher] nor calls
    [enhance_options_with_oi]. *)
Definition quiet {A : Type} (m : M A) : Prop :=
  forall st r st',
    m st = (r, st') ->
    oi_fetcher st' = oi_fetcher st /\
    exists evs, trace st' = trace st ++ evs /\ Forall not_enhance evs.

(** * Proofs *)

(** ** The strike ladder *)

Lemma py_range_length a b : length (py_range a b) = Z.to_nat (b - a).
Proof. unfold py_range. now rewrite length_map, length_seq. Qed.

Lemma py_range_nth a b i :
  (i < Z.to_nat (b - a))%nat -> nth i (py_range a b) 0 = a + Z.of_nat i.
Proof.
  intro H. unfold py_range.
  set (f := fun k => a + Z.of_nat k).
  rewrite nth_indep with (d' := f 0%nat) by now rewrite length_map, length_seq.
  rewrite map_nth, seq_nth by assumption. reflexivity.
Qed.

Lemma strikes_to_check_length atm inc sides :
  length (strikes_to_check atm inc sides) = Z.to_nat (2 * sides + 1).
Proof.
  unfold strikes_to_check. rewrite length_map, py_range_length. f_equal. lia.
Qed.

Lemma strikes_to_check_nth atm inc sides i :
  (i < Z.to_nat (2 * sides + 1))%nat ->
  nth i (strikes_to_check atm inc sides) 0 = atm + (Z.of_nat i - sides) * inc.
Proof.
  intro H. unfold strikes_to_check.
  set (f := fun j => atm + j * inc).
  rewrite nth_indep with (d' := f 0) by (rewrite length_map, py_range_length; lia).
  rewrite map_nth, py_range_nth by lia. unfold f. f_equal. f_equal. lia.
Qed.

(** C5. For a positive increment and a count [sides] of strikes on each
    side, the ladder has [2*sides+1] strikes, the middle one is
    [atm_strike], consecutive strikes differ by the increment, and the
    strikes ascend strictly; the ladder around 5000 with increment 5 and 2
    strikes a side is 4990, 4995, 5000, 5005, 5010. *)
Theorem build_ladder_shape :
  forall atm_strike increment sides,
    0 < increment -> 0 <= sides ->
    let ladder := strikes_to_check atm_strike increment sides in
    Z.of_nat (length ladder) = 2 * sides + 1 /\
    nth (Z.to_nat sides) ladder 0 = atm_strike /\
    (forall i, (S i < length ladder)%nat ->
               nth (S i) ladder 0 - nth i ladder 0 = increment) /\
    (forall i j, (i < j < length ladder)%nat -> nth i ladder 0 < nth j ladder 0) /\
    strikes_to_check 5000 5 2 = [4990; 4995; 5000; 5005; 5010].
Proof.
  intros atm inc sides Hinc Hsides ladder. subst ladder.
  rewrite strikes_to_check_length.
  repeat split.
  - lia.
  - rewrite strikes_to_check_nth by lia. rewrite Z2Nat.id by lia. lia.
  - intros i Hi. rewrite !strikes_to_check_nth by lia. lia.
  - intros i j Hij. rewrite !strikes_to_check_nth by lia. nia.
Qed.

Lemma build_ladder_shape_witness :
  Z.of_nat (length (strikes_to_check 450 1 20)) = 2 * 20 + 1 /\
  nth (Z.to_nat 20) (strikes_to_check 450 1 20) 0 = 450.
Proof.
  pose proof (build_ladder_shape 450 1 20 ltac:(lia) ltac:(lia)) as H.
  cbv zeta in H. destruct H as (H1 & H2 & _). split; assumption.
Defined.

(** ** Rounding to the strike grid *)

Lemma round_half_even_bounds q :
  (inject_Z (round_half_even q) - q <= 1 # 2)%Q /\
  (q - inject_Z (round_half_even q) <= 1 # 2)%Q.
Proof.
  unfold round_half_even.
  pose proof (Qfloor_le q) as Hlo. pose proof (Qlt_floor q) as Hhi.
  rewrite inject_Z_plus in Hhi. change (inject_Z 1) with 1%Q in Hhi.
  destruct (Qcompare (q - inject_Z (Qfloor q)) (1 # 2)) eqn:E.
  - apply Qeq_alt in E.
    destruct (Z.even (Qfloor q)); [| rewrite inject_Z_plus; change (inject_Z 1) with 1%Q ];
      split; lra.
  - apply Qlt_alt in E. split; lra.
  - apply Qgt_alt in E. rewrite inject_Z_plus. change (inject_Z 1) with 1%Q. split; lra.
Qed.


(** ** Powers of two *)

Lemma two_neq_0 : ~ ((2 # 1) == 0)%Q.
Proof. discriminate. Qed.

Lemma pow2_pos z : (0 < pow2 z)%Q.
Proof. apply Qpower_0_lt. reflexivity. Qed.

Lemma pow2_add a b : (pow2 (a + b) == pow2 a * pow2 b)%Q.
Proof. apply Qpower_plus, two_neq_0. Qed.

Lemma pow2_lt a b : a < b -> (pow2 a < pow2 b)%Q.
Proof. intro H. apply Qpower_lt_compat_l; [exact H | reflexivity]. Qed.

Lemma pow2_le a b : a <= b -> (pow2 a <= pow2 b)%Q.
Proof. intro H. apply Qpower_le_compat_l; [exact H | discriminate]. Qed.

Lemma pow2_lt_inv a b : (pow2 a < pow2 b)%Q -> a < b.
Proof.
  intro H. destruct (Z_lt_le_dec a b) as [Hlt | Hge]; [exact Hlt |].
  apply pow2_le in Hge. lra.
Qed.

Lemma pow2_Z z : 0 <= z -> (pow2 z == inject_Z (2 ^ z))%Q.
Proof. intro H. unfold pow2. symmetry. apply (Zpower_Qpower 2 z H). Qed.

Lemma binade_spec x : ~ (x == 0)%Q -> (pow2 (binade x) <= Qabs x < pow2 (binade x + 1))%Q.
Proof.
  intro Hx. unfold binade.
  set (la := Z.log2 (Z.abs (Qnum x))). set (lb := Z.log2 (Zpos (Qden x))).
  assert (0 < Z.abs (Qnum x)) as Hn.
  { destruct x as [a b]. unfold Qeq in Hx. cbn in *. lia. }
  destruct (Z.log2_spec _ Hn) as [Hn1 Hn2]. fold la in Hn1, Hn2.
  destruct (Z.log2_spec (Zpos (Qden x)) eq_refl) as [Hd1 Hd2]. fold lb in Hd1, Hd2.
  assert (0 <= la) as Hla by apply Z.log2_nonneg.
  assert (0 <= lb) as Hlb by apply Z.log2_nonneg.
  assert (0 < 2 ^ la) as Hpa by (apply Z.pow_pos_nonneg; lia).
  assert (0 < 2 ^ lb) as Hpb by (apply Z.pow_pos_nonneg; lia).
  assert (Qabs x < pow2 (la - lb + 1))%Q as Hup.
  { apply (Qmult_lt_r _ _ (pow2 lb) (pow2_pos lb)).
    rewrite <- pow2_add. replace (la - lb + 1 + lb) with (Z.succ la) by lia.
    rewrite !pow2_Z by lia.
    destruct x as [a b]. cbn [Qabs Qnum Qden] in *.
    unfold Qlt, Qmult, inject_Z. cbn [Qnum Qden]. rewrite Pos.mul_1_r. nia. }
  assert (pow2 (la - lb - 1) <= Qabs x)%Q as Hlow.
  { apply (Qmult_le_r _ _ (pow2 (Z.succ lb)) (pow2_pos _)).
    rewrite <- pow2_add. replace (la - lb - 1 + Z.succ lb) with la by lia.
    rewrite !pow2_Z by lia.
    destruct x as [a b]. cbn [Qabs Qnum Qden] in *.
    unfold Qle, Qmult, inject_Z. cbn [Qnum Qden]. rewrite Pos.mul_1_r. nia. }
  destruct (Qle_bool (pow2 (la - lb)) (Qabs x)) eqn:Htest.
  - apply Qle_bool_iff in Htest. split; assumption.
  - split; [exact Hlow |].
    replace (la - lb - 1 + 1) with (la - lb) by lia.
    apply Qnot_le_lt. intro H. apply Qle_bool_iff in H. congruence.
Qed.

Lemma binade_unique x e : (pow2 e <= Qabs x < pow2 (e + 1))%Q -> binade x = e.
Proof.
  intros [H1 H2].
  assert (~ (x == 0)%Q) as Hx.
  { intro H0. rewrite H0 in H1. pose proof (pow2_pos e). cbn in H1. lra. }
  destruct (binade_spec x Hx) as [B1 B2].
  assert (pow2 e < pow2 (binade x + 1))%Q as Ha by lra.
  assert (pow2 (binade x) < pow2 (e + 1))%Q as Hb by lra.
  apply pow2_lt_inv in Ha, Hb. lia.
Qed.

Lemma binade_lt x e : ~ (x == 0)%Q -> (Qabs x < pow2 e)%Q -> binade x < e.
Proof.
  intros Hx H. destruct (binade_spec x Hx) as [B1 _].
  apply pow2_lt_inv. lra.
Qed.


(** ** Rounding to binary64 *)

Lemma ulp_pos x : (0 < ulp x)%Q.
Proof. apply pow2_pos. Qed.

Lemma round64_zero x : (x == 0)%Q -> round64 x = 0%Q.
Proof. intro H. unfold round64. apply Qeq_bool_iff in H. now rewrite H. Qed.

Lemma round64_nonzero x :
  ~ (x == 0)%Q -> round64 x = (inject_Z (round_half_even (x / ulp x)) * ulp x)%Q.
Proof.
  intro H. unfold round64. destruct (Qeq_bool x 0) eqn:E; [| reflexivity].
  apply Qeq_bool_iff in E. contradiction.
Qed.

Lemma quotient_by_ulp x : (x == x / ulp x * ulp x)%Q.
Proof. pose proof (ulp_pos x). field. lra. Qed.

Lemma round64_error x : (Qabs (round64 x - x) <= ulp x * (1 # 2))%Q.
Proof.
  pose proof (ulp_pos x) as Hu.
  destruct (Qeq_dec x 0) as [H0 | Hx].
  - rewrite (round64_zero x H0). apply Qabs_case; intro; lra.
  - rewrite (round64_nonzero x Hx).
    destruct (round_half_even_bounds (x / ulp x)) as [H1 H2].
    pose proof (quotient_by_ulp x) as Hq.
    set (t := (x / ulp x)%Q) in *. set (r := inject_Z (round_half_even t)) in *.
    assert (r * ulp x - x == (r - t) * ulp x)%Q as -> by (rewrite Hq at 2; ring).
    rewrite Qabs_Qmult, (Qabs_pos (ulp x)) by lra.
    rewrite (Qmult_comm (ulp x)). apply Qmult_le_compat_r; [| lra].
    apply Qabs_case; intro; lra.
Qed.






(** ** The quotient by 5 of a binary64 value *)

Lemma pow2_shift2 z : (pow2 (z + 2) == (4 # 1) * pow2 z)%Q.
Proof. rewrite pow2_add. rewrite Qmult_comm. apply Qmult_comp; reflexivity. Qed.

Lemma fifth_binade q :
  ~ (q == 0)%Q -> binade (q / (5 # 1)) < binade q - 1.
Proof.
  intro Hq. destruct (binade_spec q Hq) as [_ Hup].
  assert (q == (5 # 1) * (q / (5 # 1)))%Q as Hq5 by field.
  set (x := (q / (5 # 1))%Q) in *.
  assert (~ (x == 0)%Q) as Hx by (intro H0; apply Hq; rewrite Hq5, H0; reflexivity).
  apply binade_lt; [exact Hx |].
  replace (binade q + 1) with (binade q - 1 + 2) in Hup by lia.
  rewrite pow2_shift2 in Hup. pose proof (pow2_pos (binade q - 1)) as Hp.
  revert Hup. apply Qabs_case; intro; apply Qabs_case; intros; lra.
Qed.

Lemma fifth_ulp_small q :
  ~ (q == 0)%Q -> (Qabs q < pow2 52)%Q -> (ulp (q / (5 # 1)) <= 1 # 8)%Q.
Proof.
  intros Hq Hlt. pose proof (fifth_binade q Hq) as Hb.
  pose proof (binade_lt q 52 Hq Hlt) as Hbq.
  unfold ulp. change (1 # 8)%Q with (pow2 (-3)). apply pow2_le. lia.
Qed.







(** Whatever the magnitude below [2**52], the rounded quotient is within
    [9/16] of the exact one. *)
Lemma quotient_rounds_close q :
  (Qabs q < pow2 52)%Q ->
  let n := inject_Z (round_half_even (round64 (q / (5 # 1)))) in
  (n - q / (5 # 1) <= 9 # 16 /\ q / (5 # 1) - n <= 9 # 16)%Q.
Proof.
  intros Hlt. cbv zeta.
  assert (q == (5 # 1) * (q / (5 # 1)))%Q as Hq5 by field.
  destruct (Qeq_dec q 0) as [H0 | Hq].
  - assert (q / (5 # 1) == 0)%Q as Hx by lra.
    rewrite (round64_zero _ Hx). change (inject_Z (round_half_even 0)) with 0%Q. lra.
  - pose proof (fifth_ulp_small q Hq Hlt) as Hu.
    pose proof (round64_error (q / (5 # 1))) as Herr.
    pose proof (round_half_even_bounds (round64 (q / (5 # 1)))) as [Hn1 Hn2].
    revert Herr. apply Qabs_case; intros; split; lra.
Qed.




(** ** The fallback search *)

Lemma attempts_app evs1 evs2 : attempts (evs1 ++ evs2) = attempts evs1 ++ attempts evs2.
Proof. unfold attempts. apply flat_map_app. Qed.

Lemma first_success_app {A B : Type} (body : A -> M (option B)) (l1 l2 : list A) st :
  first_success body (l1 ++ l2) st =
  bind (first_success body l1)
       (fun r => match r with
                 | Some v => ret (Some v)
                 | None => first_success body l2
                 end) st.
Proof.
  revert st. induction l1 as [| x l1 IH]; intro st; simpl.
  - reflexivity.
  - unfold bind in *. destruct (body x st) as [[[v |] | e] st1]; cbn.
    + reflexivity.
    + apply IH.
    + reflexivity.
Qed.

Lemma first_success_map {A A' B : Type} (body : A' -> M (option B)) (g : A -> A')
    (l : list A) st :
  first_success body (map g l) st = first_success (fun x => body (g x)) l st.
Proof.
  revert st. induction l as [| x l IH]; intro st; simpl.
  - reflexivity.
  - unfold bind. destruct (body (g x) st) as [[[v |] | e] st1]; auto.
Qed.

Lemma first_success_nested {B : Type} (body : string -> string -> M (option B))
    (exchanges : string -> list string) (variants : list string) st :
  first_success (fun v => first_success (body v) (exchanges v)) variants st =
  first_success (fun ve => body (fst ve) (snd ve)) (combinations variants exchanges) st.
Proof.
  revert st. induction variants as [| v vs IH]; intro st.
  - reflexivity.
  - cbn [combinations flat_map]. rewrite first_success_app.
    cbn [first_success]. unfold bind.
    rewrite first_success_map. cbn [fst snd].
    change (fun x : string => body v x) with (body v).
    destruct (first_success (body v) (exchanges v) st) as [[[c |] | e] st1].
    + reflexivity.
    + apply IH.
    + reflexivity.
Qed.

Section Search.

Variable sess : Session.
Variable enable_oi_streaming : bool.

Lemma first_success_search {A : Type} (body : A -> M (option Contract.t))
    (desc : A -> Contract.t) :
  (forall x, one_attempt sess (body x) (desc x)) ->
  forall items st, exists r st' evs,
    first_success body items st = (Normal r, st') /\
    trace st' = trace st ++ evs /\
    search_log (map desc items) (attempts evs) r /\
    Forall (answered_by sess) (attempts evs).
Proof.
  intros Hbody items. induction items as [| x items IH]; intro st.
  - exists None, st, []. cbn. rewrite app_nil_r. repeat split; constructor.
  - destruct (Hbody x st) as (st1 & evs1 & Hrun & Htr & Hatt).
    cbn [first_success map]. unfold bind. rewrite Hrun.
    assert (answered_by sess (desc x, qualifyContractsAsync sess (trace st) (desc x))) as Hans
      by (exists (trace st); reflexivity).
    destruct (accepted (qualifyContractsAsync sess (trace st) (desc x))) as [c |] eqn:Hacc.
    + exists (Some c), st1, evs1. rewrite Hatt. repeat split; auto.
      now apply search_hit.
    + destruct (IH st1) as (r & st2 & evs2 & Hrun2 & Htr2 & Hlog & Hall).
      exists r, st2, (evs1 ++ evs2). rewrite attempts_app, Hatt. repeat split.
      * exact Hrun2.
      * rewrite Htr2, Htr. now rewrite app_assoc.
      * now apply search_miss.
      * constructor; assumption.
Qed.

Lemma ensure_connected_live st :
  get_ib_connection sess (trace st) = Normal true ->
  exists st' evs,
    _ensure_connected sess enable_oi_streaming st = (Normal tt, st') /\
    trace st' = trace st ++ evs /\
    attempts evs = [].
Proof.
  intro Hlive. unfold _ensure_connected, bind, await, get_oi_fetcher. rewrite Hlive. cbn.
  destruct (enable_oi_streaming && negb (oi_fetcher st)); cbn.
  - eexists _, [_; _]. repeat split; cbn; [now rewrite <- app_assoc | reflexivity].
  - eexists _, [_]. repeat split.
Qed.

Lemma attempt_underlying_one symbol_name sym_variant exchange :
  one_attempt sess (attempt_underlying sess symbol_name sym_variant exchange)
    (Underlying.descriptor symbol_name sym_variant exchange).
Proof.
  intro st. unfold attempt_underlying, try_except, bind, await.
  destruct (qualifyContractsAsync sess (trace st) _) as [[| [c |] rest] | e]; cbn.
  - eexists _, [_]. repeat split.
  - destruct (Contract.conId c =? 0); cbn.
    + eexists _, [_]. repeat split.
    + eexists _, [_; _]. repeat split; cbn; [now rewrite <- app_assoc | reflexivity].
  - eexists _, [_; _]. repeat split; cbn; [now rewrite <- app_assoc | reflexivity].
  - eexists _, [_; _]. repeat split; cbn; [now rewrite <- app_assoc | reflexivity].
Qed.

Lemma attempt_option_one symbol_name expiry_date strike right trading_class sym_variant exchange :
  one_attempt sess
    (attempt_option sess symbol_name expiry_date strike right trading_class sym_variant exchange)
    (Opt.descriptor expiry_date strike right trading_class sym_variant exchange).
Proof.
  intro st. unfold attempt_option, try_except, bind, await.
  destruct (qualifyContractsAsync sess (trace st) _) as [[| [c |] rest] | e]; cbn.
  - eexists _, [_]. repeat split.
  - destruct (Contract.conId c =? 0); cbn.
    + eexists _, [_]. repeat split.
    + destruct (negb (sym_variant =? symbol_name)%string || negb (exchange =? "CBOE")%string);
        cbn.
      * eexists _, [_; _]. repeat split; cbn; [now rewrite <- app_assoc | reflexivity].
      * eexists _, [_]. repeat split.
  - eexists _, [_; _]. repeat split; cbn; [now rewrite <- app_assoc | reflexivity].
  - eexists _, [_; _]. repeat split; cbn; [now rewrite <- app_assoc | reflexivity].
Qed.

(** The shape shared by the two fallback methods. *)
Lemma fallback_run (attempt : string -> string -> M (option Contract.t))
    (desc : string -> string -> Contract.t) (exchanges : string -> list string)
    (variants : list string) (level : LogLevel) (msg : Message) st :
  (forall v x, one_attempt sess (attempt v x) (desc v x)) ->
  get_ib_connection sess (trace st) = Normal true ->
  exists r st' evs,
    (_ensure_connected sess enable_oi_streaming ;;;
     r <- first_success (fun v => first_success (attempt v) (exchanges v)) variants ;;
     match r with
     | Some c => ret (Some c)
     | None => log level msg ;;; ret None
     end) st = (Normal r, st') /\
    trace st' = trace st ++ evs /\
    search_log (map (fun ve => desc (fst ve) (snd ve)) (combinations variants exchanges))
               (attempts evs) r /\
    Forall (answered_by sess) (attempts evs).
Proof.
  intros Hone Hlive.
  destruct (ensure_connected_live st Hlive) as (st1 & evs1 & Hrun1 & Htr1 & Hatt1).
  destruct (first_success_search (fun ve => attempt (fst ve) (snd ve))
              (fun ve => desc (fst ve) (snd ve)) (fun ve => Hone (fst ve) (snd ve))
              (combinations variants exchanges) st1)
    as (r & st2 & evs2 & Hrun2 & Htr2 & Hlog & Hans).
  rewrite <- first_success_nested in Hrun2.
  unfold bind at 1. rewrite Hrun1. unfold bind at 1. rewrite Hrun2.
  destruct r as [c |]; cbn.
  - exists (Some c), st2, (evs1 ++ evs2). rewrite attempts_app, Hatt1. cbn.
    repeat split; auto. rewrite Htr2, Htr1. now rewrite app_assoc.
  - eexists None, _, (evs1 ++ evs2 ++ [_]). repeat split.
    + cbn. rewrite Htr2, Htr1. now rewrite <- !app_assoc.
    + rewrite !attempts_app, Hatt1. cbn. now rewrite app_nil_r.
    + rewrite !attempts_app, Hatt1. cbn. now rewrite app_nil_r.
Qed.

End Search.

Lemma search_log_order ds log r :
  search_log ds log r -> map fst log = firstn (length log) ds.
Proof. induction 1; cbn; congruence. Qed.

Lemma search_log_found ds log c :
  search_log ds log (Some c) ->
  exists earlier d a,
    log = earlier ++ [(d, a)] /\ Forall rejected earlier /\ accepted a = Some c.
Proof.
  intro H. remember (Some c) as r eqn:Hr. induction H as [| d ds a c' Ha | d ds a log r Ha H IH].
  - discriminate.
  - inversion Hr; subst. exists [], d, a. repeat split; auto.
  - destruct (IH Hr) as (earlier & d' & a' & -> & Hrej & Hacc).
    exists ((d, a) :: earlier), d', a'. repeat split; auto.
Qed.

Lemma search_log_exhausted ds log :
  search_log ds log None -> length log = length ds /\ Forall rejected log.
Proof.
  intro H. remember None as r eqn:Hr. induction H as [| d ds a c' Ha | d ds a log r Ha H IH].
  - split; constructor.
  - discriminate.
  - destruct (IH Hr) as [Hlen Hrej]. cbn. split; [congruence | constructor; assumption].
Qed.

Lemma search_log_all_rejected ds log r :
  search_log ds log r -> Forall rejected log -> r = None.
Proof.
  induction 1 as [| d ds a c Ha | d ds a log r Ha H IH]; intro Hall.
  - reflexivity.
  - inversion Hall as [| ? ? Hrej _]; subst. unfold rejected in Hrej. cbn in Hrej. congruence.
  - inversion Hall; subst. auto.
Qed.

(** C1. With a live connection [qualify_underlying_with_fallback] submits
    the candidates of the symbol in the order of the tables, variants
    outside and the exchanges of each variant inside (for SPX: SPX on CBOE,
    SPX on SMART, SPXW on CBOE, SPXW on SMART), and stops at the first
    answer with a contract whose identifier is set: that contract is the
    result, every earlier answer was rejected, and no attempt follows it.
    When it returns [None] every candidate was tried and rejected. *)
Theorem qualify_underlying_priority_order :
  forall sess enable_oi_streaming symbol_name st,
    get_ib_connection sess (trace st) = Normal true ->
    exists result st' evs,
      qualify_underlying_with_fallback sess enable_oi_streaming symbol_name st
        = (Normal result, st') /\
      trace st' = trace st ++ evs /\
      map fst (attempts evs)
        = firstn (length (attempts evs)) (underlying_candidates symbol_name) /\
      Forall (answered_by sess) (attempts evs) /\
      match result with
      | Some c =>
          exists earlier d a,
            attempts evs = earlier ++ [(d, a)] /\
            Forall rejected earlier /\
            accepted a = Some c
      | None =>
          length (attempts evs) = length (underlying_candidates symbol_name) /\
          Forall rejected (attempts evs)
      end /\
      underlying_candidates "SPX"
      = [Index "SPX" "CBOE" "USD"; Index "SPX" "SMART" "USD";
         Index "SPXW" "CBOE" "USD"; Index "SPXW" "SMART" "USD"].
Proof.
  intros sess enable symbol_name st Hlive.
  destruct (fallback_run sess enable (attempt_underlying sess symbol_name)
              (Underlying.descriptor symbol_name) Underlying.exchanges
              (Underlying.symbol_variations symbol_name) ERROR
              (FailedAnyCombination symbol_name) st
              (attempt_underlying_one sess symbol_name) Hlive)
    as (r & st' & evs & Hrun & Htr & Hlog & Hans).
  exists r, st', evs.
  split; [exact Hrun |]. split; [exact Htr |].
  split; [now apply search_log_order with (r := r) |].
  split; [exact Hans |]. split; [| reflexivity].
  destruct r as [c |].
  - now apply search_log_found with (ds := underlying_candidates symbol_name).
  - now apply search_log_exhausted.
Qed.

Lemma qualify_underlying_priority_order_witness :
  exists result st' evs,
    qualify_underlying_with_fallback (Mock.session Mock.off_cboe Mock.quotes_ok) true "SPX"
      Mock.start = (Normal result, st') /\
    map fst (attempts evs) = firstn (length (attempts evs)) (underlying_candidates "SPX").
Proof.
  destruct (qualify_underlying_priority_order
              (Mock.session Mock.off_cboe Mock.quotes_ok) true "SPX" Mock.start eq_refl)
    as (result & st' & evs & Hrun & _ & Horder & _).
  exists result, st', evs. split; assumption.
Defined.

(** Every variant of a symbol has as many exchanges as the others. *)
Lemma underlying_combinations_count symbol_name v :
  In v (Underlying.symbol_variations symbol_name) ->
  length (underlying_candidates symbol_name)
  = (length (Underlying.symbol_variations symbol_name) * length (Underlying.exchanges v))%nat.
Proof.
  unfold underlying_candidates, Underlying.symbol_variations. rewrite length_map.
  cbn [dict_get].
  repeat match goal with
         | |- context [String.eqb ?k symbol_name] =>
             destruct (String.eqb_spec k symbol_name) as [<- |];
             [ cbn; intuition (subst; reflexivity) |]
         end.
  cbn. intros [<- | []]. rewrite length_app, length_map. cbn. lia.
Qed.

Lemma option_combinations_count symbol_name expiry_date strike right trading_class v :
  In v (Opt.symbol_variations symbol_name) ->
  length (option_candidates symbol_name expiry_date strike right trading_class)
  = (length (Opt.symbol_variations symbol_name) * length (Opt.exchanges v))%nat.
Proof.
  unfold option_candidates, Opt.symbol_variations. rewrite length_map.
  cbn [dict_get].
  repeat match goal with
         | |- context [String.eqb ?k symbol_name] =>
             destruct (String.eqb_spec k symbol_name) as [<- |];
             [ cbn; intuition (subst; reflexivity) |]
         end.
  cbn. intros [<- | []]. rewrite length_app, length_map. cbn. lia.
Qed.

Lemma all_rejected sess log :
  (forall h d, accepted (qualifyContractsAsync sess h d) = None) ->
  Forall (answered_by sess) log -> Forall rejected log.
Proof.
  intros Hdeaf Hans. apply Forall_impl with (2 := Hans).
  intros [d a] [h Ha]. cbn in Ha. subst a. apply Hdeaf.
Qed.

Section Exhaustion.

Variable sess : Session.
Variable enable_oi_streaming : bool.

Lemma qualify_underlying_run symbol_name st :
  get_ib_connection sess (trace st) = Normal true ->
  exists r st' evs,
    qualify_underlying_with_fallback sess enable_oi_streaming symbol_name st
      = (Normal r, st') /\
    trace st' = trace st ++ evs /\
    search_log (underlying_candidates symbol_name) (attempts evs) r /\
    Forall (answered_by sess) (attempts evs).
Proof.
  intro Hlive.
  exact (fallback_run sess enable_oi_streaming (attempt_underlying sess symbol_name)
           (Underlying.descriptor symbol_name) Underlying.exchanges
           (Underlying.symbol_variations symbol_name) ERROR
           (FailedAnyCombination symbol_name) st
           (attempt_underlying_one sess symbol_name) Hlive).
Qed.

Lemma qualify_option_run symbol_name expiry_date strike right trading_class st :
  get_ib_connection sess (trace st) = Normal true ->
  exists r st' evs,
    qualify_option_with_fallback sess enable_oi_streaming symbol_name expiry_date strike
      right trading_class st = (Normal r, st') /\
    trace st' = trace st ++ evs /\
    search_log (option_candidates symbol_name expiry_date strike right trading_class)
               (attempts evs) r /\
    Forall (answered_by sess) (attempts evs).
Proof.
  intro Hlive.
  exact (fallback_run sess enable_oi_streaming
           (attempt_option sess symbol_name expiry_date strike right trading_class)
           (Opt.descriptor expiry_date strike right trading_class) Opt.exchanges
           (Opt.symbol_variations symbol_name) WARNING
           (FailedAnyOptionCombination symbol_name strike right) st
           (attempt_option_one sess symbol_name expiry_date strike right trading_class) Hlive).
Qed.

End Exhaustion.

(** C2. With a live connection neither [qualify_underlying_with_fallback]
    nor [qualify_option_with_fallback] raises, whatever the session answers
    to the attempts; and when the session lets no attempt through, each of
    them returns [None] after exactly |variants| x |exchanges| attempts. *)
Theorem fallback_exhaustion_returns_none :
  forall sess enable_oi_streaming symbol_name expiry_date strike right trading_class st,
    get_ib_connection sess (trace st) = Normal true ->
    (exists r st',
        qualify_underlying_with_fallback sess enable_oi_streaming symbol_name st
          = (Normal r, st')) /\
    (exists r st',
        qualify_option_with_fallback sess enable_oi_streaming symbol_name expiry_date strike
          right trading_class st = (Normal r, st')) /\
    ((forall h d, accepted (qualifyContractsAsync sess h d) = None) ->
     (exists st' evs,
         qualify_underlying_with_fallback sess enable_oi_streaming symbol_name st
           = (Normal None, st') /\
         trace st' = trace st ++ evs /\
         forall v, In v (Underlying.symbol_variations symbol_name) ->
                   length (attempts evs)
                   = (length (Underlying.symbol_variations symbol_name)
                      * length (Underlying.exchanges v))%nat) /\
     (exists st' evs,
         qualify_option_with_fallback sess enable_oi_streaming symbol_name expiry_date strike
           right trading_class st = (Normal None, st') /\
         trace st' = trace st ++ evs /\
         forall v, In v (Opt.symbol_variations symbol_name) ->
                   length (attempts evs)
                   = (length (Opt.symbol_variations symbol_name)
                      * length (Opt.exchanges v))%nat)).
Proof.
  intros sess enable symbol_name expiry_date strike right trading_class st Hlive.
  destruct (qualify_underlying_run sess enable symbol_name st Hlive)
    as (ru & stu & evu & Hrunu & Htru & Hlogu & Hansu).
  destruct (qualify_option_run sess enable symbol_name expiry_date strike right
              trading_class st Hlive)
    as (ro & sto & evo & Hruno & Htro & Hlogo & Hanso).
  split; [eauto | split; [eauto |]].
  intro Hdeaf. split.
  - assert (ru = None) as -> by eauto using search_log_all_rejected, all_rejected.
    exists stu, evu. repeat split; auto.
    intros v Hv. destruct (search_log_exhausted _ _ Hlogu) as [-> _].
    now apply underlying_combinations_count.
  - assert (ro = None) as -> by eauto using search_log_all_rejected, all_rejected.
    exists sto, evo. repeat split; auto.
    intros v Hv. destruct (search_log_exhausted _ _ Hlogo) as [-> _].
    now apply option_combinations_count.
Qed.

Lemma fallback_exhaustion_returns_none_witness :
  exists st' evs,
    qualify_option_with_fallback (Mock.session Mock.reject Mock.quotes_ok) false "SPY"
      "20250117" 590 "C" None Mock.start = (Normal None, st') /\
    trace st' = trace Mock.start ++ evs /\
    length (attempts evs) = (1 * 6)%nat.
Proof.
  destruct (fallback_exhaustion_returns_none
              (Mock.session Mock.reject Mock.quotes_ok) false "SPY" "20250117" 590 "C" None
              Mock.start eq_refl)
    as (_ & _ & Hnone).
  destruct Hnone as (_ & st' & evs & Hrun & Htr & Hcount).
  - intros h d. unfold Mock.session, Mock.reject. cbn.
    destruct (String.eqb (Contract.exchange d) "SMART"); reflexivity.
  - exists st', evs. repeat split; auto.
    apply (Hcount "SPY"). cbn. auto.
Defined.

(** ** What escapes a method, and what it emits *)

Section Containment.

Variable P : Event -> Prop.

Lemma contained_emits {A : Type} (m : M A) : contained P m -> emits P m.
Proof.
  intros H st r st' Hrun. destruct (H st r st' Hrun) as (evs & Htr & HP & _). eauto.
Qed.

Lemma contained_ret {A : Type} (a : A) : contained P (ret a).
Proof.
  intros st r st' Hrun. inversion Hrun; subst. exists []. rewrite app_nil_r. auto.
Qed.

Lemma contained_emit ev : P ev -> contained P (emit ev).
Proof.
  intros Hev st r st' Hrun. inversion Hrun; subst. exists [ev]. cbn. auto.
Qed.

Lemma contained_bind_post {A B : Type} (Q : A -> Prop) (m : M A) (k : A -> M B) :
  contained P m ->
  (forall st a st', m st = (Normal a, st') -> Q a) ->
  (forall a, Q a -> contained P (k a)) ->
  contained P (bind m k).
Proof.
  intros Hm HQ Hk st r st' Hrun. unfold bind in Hrun.
  destruct (m st) as [[a | e] st1] eqn:Hm1.
  - destruct (Hm st _ _ Hm1) as (evs1 & Htr1 & HP1 & _).
    destruct (Hk a (HQ _ _ _ Hm1) st1 r st' Hrun) as (evs2 & Htr2 & HP2 & Hesc).
    exists (evs1 ++ evs2). split; [| split].
    + rewrite Htr2, Htr1. now rewrite app_assoc.
    + apply Forall_app. auto.
    + destruct r as [b | e]; [exact I |].
      destruct Hesc as (earlier & ev & -> & Hesc).
      exists (evs1 ++ earlier), ev. split; [now rewrite app_assoc | exact Hesc].
  - inversion Hrun; subst. exact (Hm st _ _ Hm1).
Qed.

Lemma contained_bind {A B : Type} (m : M A) (k : A -> M B) :
  contained P m -> (forall a, contained P (k a)) -> contained P (bind m k).
Proof.
  intros Hm Hk. apply contained_bind_post with (Q := fun _ => True); auto.
Qed.

Lemma emits_bind {A B : Type} (m : M A) (k : A -> M B) :
  emits P m -> (forall a, emits P (k a)) -> emits P (bind m k).
Proof.
  intros Hm Hk st r st' Hrun. unfold bind in Hrun.
  destruct (m st) as [[a | e] st1] eqn:Hm1.
  - destruct (Hm st _ _ Hm1) as (evs1 & Htr1 & HP1).
    destruct (Hk a st1 r st' Hrun) as (evs2 & Htr2 & HP2).
    exists (evs1 ++ evs2). split.
    + rewrite Htr2, Htr1. now rewrite app_assoc.
    + apply Forall_app. auto.
  - inversion Hrun; subst. exact (Hm st _ _ Hm1).
Qed.

Lemma emits_await {A : Type} (answer : list Event -> Outcome A) (ev : Outcome A -> Event) :
  (forall r, P (ev r)) -> emits P (await answer ev).
Proof.
  intros Hev st r st' Hrun. inversion Hrun; subst. eexists [_]. cbn. auto.
Qed.

(** What a [try] lets out is what its handler lets out. *)
Lemma contained_try_except {A : Type} (body : M A) (handler : exn -> M A) :
  emits P body -> (forall e, contained P (handler e)) ->
  contained P (try_except body handler).
Proof.
  intros Hbody Hhandler st r st' Hrun. unfold try_except in Hrun.
  destruct (body st) as [[a | e] st1] eqn:Hb.
  - inversion Hrun; subst. destruct (Hbody st _ _ Hb) as (evs & Htr & HP). eauto.
  - destruct (Hbody st _ _ Hb) as (evs1 & Htr1 & HP1).
    destruct (Hhandler e st1 r st' Hrun) as (evs2 & Htr2 & HP2 & Hesc).
    exists (evs1 ++ evs2). split; [| split].
    + rewrite Htr2, Htr1. now rewrite app_assoc.
    + apply Forall_app. auto.
    + destruct r as [b | e']; [exact I |].
      destruct Hesc as (earlier & ev & -> & Hesc).
      exists (evs1 ++ earlier), ev. split; [now rewrite app_assoc | exact Hesc].
Qed.

Lemma contained_first_success {A B : Type} (body : A -> M (option B)) (items : list A) :
  (forall x, contained P (body x)) -> contained P (first_success body items).
Proof.
  intro Hbody. induction items as [| x items IH]; cbn [first_success].
  - apply contained_ret.
  - apply contained_bind; [apply Hbody |].
    intros [v |]; [apply contained_ret | exact IH].
Qed.

End Containment.

Lemma usable_is_positive x :
  le0 x = false -> str_is_nan x = false -> positive x \/ x = Inf false.
Proof.
  destruct x as [q | | negative]; cbn; intros Hle Hnan; try discriminate.
  - left. apply Qnot_le_lt. intro Hq. apply Qle_bool_iff in Hq. congruence.
  - right. now subst.
Qed.

Lemma falsy_is_not_positive x : truthy x = false -> le0 x = true.
Proof.
  destruct x as [q | | negative]; cbn; intro H; try discriminate.
  apply negb_false_iff, Qeq_bool_iff in H. apply Qle_bool_iff. rewrite H. apply Qle_refl.
Qed.

(** The two ways out of lines 214-222: the placeholder with its notice, or
    the quoted price as it is. *)
Lemma spot_price_of_cases symbol_name tickers st :
  (unusable_spot tickers /\
   exists msg,
     (msg = NoSpotPlaceholder symbol_name \/ msg = InvalidSpotPlaceholder symbol_name) /\
     spot_price_of symbol_name tickers st
     = (Normal (Fin (5000 # 1)), mk_State (trace st ++ [EvPrint msg]) (oi_fetcher st))) \/
  (exists t0 rest, tickers = t0 :: rest /\
     le0 (quoted_price t0) = false /\ str_is_nan (quoted_price t0) = false /\
     spot_price_of symbol_name tickers st = (Normal (quoted_price t0), st)).
Proof.
  unfold spot_price_of, unusable_spot, quoted_price, bind, print, emit, ret.
  destruct tickers as [| t0 rest]; [left; split; [exact I | eauto] |].
  destruct (truthy (Ticker.marketPrice t0)) eqn:Hm; cbn [orb].
  - rewrite Hm. cbn [negb orb].
    destruct (le0 (Ticker.marketPrice t0)) eqn:Hle; cbn [orb];
      [left; split; [now left | eauto] |].
    destruct (str_is_nan (Ticker.marketPrice t0)) eqn:Hnan;
      [left; split; [now right | eauto] |].
    right. exists t0, rest. rewrite Hm. auto.
  - destruct (truthy (Ticker.close t0)) eqn:Hc.
    + cbn [negb orb].
      destruct (le0 (Ticker.close t0)) eqn:Hle; cbn [orb];
        [left; split; [now left | eauto] |].
      destruct (str_is_nan (Ticker.close t0)) eqn:Hnan;
        [left; split; [now right | eauto] |].
      right. exists t0, rest. rewrite Hm. auto.
    + left. split; [left; now apply falsy_is_not_positive | eauto].
Qed.

Lemma atm_strike_of_finite symbol_name q :
  exists k, atm_strike_of symbol_name (Fin q) = Normal k.
Proof.
  unfold atm_strike_of, div5, py_round.
  destruct (str_in symbol_name ["SPX"; "SPXW"; "NDX"]); [eauto |].
  destruct (String.eqb symbol_name "SPY"); eauto.
Qed.

Lemma atm_strike_of_infinite symbol_name negative :
  atm_strike_of symbol_name (Inf negative) = Raise overflow_error.
Proof.
  unfold atm_strike_of, div5, py_round.
  destruct (str_in symbol_name ["SPX"; "SPXW"; "NDX"]); [reflexivity |].
  destruct (String.eqb symbol_name "SPY"); reflexivity.
Qed.

Lemma spot_and_strike_run {B : Type} sess symbol_name contracts (k : pyfloat -> Z -> M B) st :
  match reqTickersAsync sess (trace st) contracts with
  | Raise e =>
      spot_and_strike sess symbol_name contracts k st
      = (Raise e, mk_State (trace st ++ [EvReqTickers contracts (Raise e)]) (oi_fetcher st))
  | Normal tickers =>
      let st2 := mk_State ((trace st ++ [EvReqTickers contracts (Normal tickers)]) ++ [EvSleep])
                   (oi_fetcher st) in
      (unusable_spot tickers /\
       exists msg atm_strike,
         atm_strike_of symbol_name (Fin (5000 # 1)) = Normal atm_strike /\
         spot_and_strike sess symbol_name contracts k st
         = k (Fin (5000 # 1)) atm_strike
             (mk_State (trace st2 ++ [EvPrint msg]) (oi_fetcher st))) \/
      (exists t0 rest q atm_strike,
         tickers = t0 :: rest /\ quoted_price t0 = Fin q /\ (0 < q)%Q /\
         atm_strike_of symbol_name (Fin q) = Normal atm_strike /\
         spot_and_strike sess symbol_name contracts k st = k (Fin q) atm_strike st2) \/
      (exists t0 rest,
         tickers = t0 :: rest /\ quoted_price t0 = Inf false /\
         spot_and_strike sess symbol_name contracts k st = (Raise overflow_error, st2))
  end.
Proof.
  destruct (reqTickersAsync sess (trace st) contracts) as [tickers | e] eqn:Hq.
  2: { unfold spot_and_strike, bind at 1, await. now rewrite Hq. }
  assert (spot_and_strike sess symbol_name contracts k st
          = (spot_price <- spot_price_of symbol_name tickers ;;
             atm_strike <- lift_outcome (atm_strike_of symbol_name spot_price) ;;
             k spot_price atm_strike)
              (mk_State ((trace st ++ [EvReqTickers contracts (Normal tickers)]) ++ [EvSleep])
                 (oi_fetcher st))) as ->.
  { unfold spot_and_strike, bind at 1, await. now rewrite Hq. }
  cbv zeta. set (st2 := mk_State _ _).
  destruct (spot_price_of_cases symbol_name tickers st2)
    as [(Hun & msg & _ & Hspot) | (t0 & rest & -> & Hle & Hnan & Hspot)].
  - left. split; [exact Hun |].
    destruct (atm_strike_of_finite symbol_name (5000 # 1)) as [atm Hatm].
    exists msg, atm. split; [exact Hatm |].
    unfold bind at 1. rewrite Hspot. unfold bind, lift_outcome. now rewrite Hatm.
  - right. destruct (usable_is_positive _ Hle Hnan) as [Hpos | Hinf].
    + left. destruct (quoted_price t0) as [q | |] eqn:Hprice; try contradiction.
      destruct (atm_strike_of_finite symbol_name q) as [atm Hatm].
      exists t0, rest, q, atm. repeat split; try assumption.
      unfold bind at 1. rewrite Hspot. unfold bind, lift_outcome. now rewrite Hatm.
    + right. exists t0, rest. repeat split; try assumption.
      unfold bind at 1. rewrite Hspot. unfold bind, lift_outcome.
      now rewrite Hinf, atm_strike_of_infinite.
Qed.

Section ClientContainment.

Variable sess : Session.
Variable enable_oi_streaming : bool.
Variable P : Event -> Prop.
Variable expiry_date : string.

Hypothesis P_plain :
  forall ev, match ev with
             | EvQualify _ _ => True
             | _ => P ev
             end.
Hypothesis P_underlying :
  forall symbol_name sym_variant exchange a,
    P (EvQualify (Underlying.descriptor symbol_name sym_variant exchange) a).
Hypothesis P_option :
  forall strike right trading_class sym_variant exchange a,
    P (EvQualify (Opt.descriptor expiry_date strike right trading_class sym_variant exchange) a).

Lemma contained_log level msg : contained P (log level msg).
Proof. apply contained_emit. exact (P_plain (EvLog level msg)). Qed.

Lemma contained_print msg : contained P (print msg).
Proof. apply contained_emit. exact (P_plain (EvPrint msg)). Qed.

Lemma ensure_connected_contained : contained P (_ensure_connected sess enable_oi_streaming).
Proof.
  intros st r st' Hrun.
  unfold _ensure_connected, bind, await, get_oi_fetcher, set_oi_fetcher, log, emit, raise, ret
    in Hrun.
  pose proof (P_plain (EvConnect (get_ib_connection sess (trace st)))) as Hc.
  pose proof (P_plain (EvLog INFO OIStreamingEnabled)) as Hl.
  destruct (get_ib_connection sess (trace st)) as [[|] | e]; cbn in Hrun.
  - destruct (enable_oi_streaming && negb (oi_fetcher st)); inversion Hrun; subst; cbn.
    + eexists [_; _]. rewrite <- app_assoc. repeat split; auto.
    + eexists [_]. repeat split; auto.
  - inversion Hrun; subst; cbn. eexists [_]. repeat split; auto.
    exists [], [EvConnect (Normal false)]. split; [reflexivity | constructor].
  - inversion Hrun; subst; cbn. eexists [_]. repeat split; auto.
    exists [], [EvConnect (Raise e)]. split; [reflexivity | constructor].
Qed.

Lemma emits_entry (q0 : option Contract.t) (k : Contract.t -> M (option Contract.t)) :
  (forall c, emits P (k c)) -> emits P (bind (attr_of_entry q0) k).
Proof.
  intro Hk. apply emits_bind; [| exact Hk].
  intros st r st' Hrun. destruct q0; inversion Hrun; subst; exists [];
    rewrite app_nil_r; auto.
Qed.

Lemma attempt_underlying_contained symbol_name sym_variant exchange :
  contained P (attempt_underlying sess symbol_name sym_variant exchange).
Proof.
  unfold attempt_underlying. apply contained_try_except.
  - apply emits_bind; [apply emits_await; intro; apply P_underlying |].
    intros [| q0 rest]; [apply contained_emits, contained_ret |].
    apply emits_entry. intro c. apply contained_emits.
    destruct (Contract.conId c =? 0); [apply contained_ret |].
    apply contained_bind; [apply contained_log | intro; apply contained_ret].
  - intro e. apply contained_bind; [apply contained_log | intro; apply contained_ret].
Qed.

Lemma attempt_option_contained symbol_name strike right trading_class sym_variant exchange :
  contained P (attempt_option sess symbol_name expiry_date strike right trading_class
                 sym_variant exchange).
Proof.
  unfold attempt_option. apply contained_try_except.
  - apply emits_bind; [apply emits_await; intro; apply P_option |].
    intros [| q0 rest]; [apply contained_emits, contained_ret |].
    apply emits_entry. intro c. apply contained_emits.
    destruct (Contract.conId c =? 0); [apply contained_ret |].
    apply contained_bind; [| intro; apply contained_ret].
    destruct (negb _ || negb _); [apply contained_log | apply contained_ret].
  - intro e. apply contained_bind; [apply contained_log | intro; apply contained_ret].
Qed.

Lemma qualify_underlying_contained symbol_name :
  contained P (qualify_underlying_with_fallback sess enable_oi_streaming symbol_name).
Proof.
  unfold qualify_underlying_with_fallback.
  apply contained_bind; [apply ensure_connected_contained | intros _].
  apply contained_bind.
  - apply contained_first_success. intro v. apply contained_first_success. intro x.
    apply attempt_underlying_contained.
  - intros [c |]; [apply contained_ret |].
    apply contained_bind; [apply contained_log | intro; apply contained_ret].
Qed.

Lemma qualify_option_contained symbol_name strike right trading_class :
  contained P (qualify_option_with_fallback sess enable_oi_streaming symbol_name expiry_date
                 strike right trading_class).
Proof.
  unfold qualify_option_with_fallback.
  apply contained_bind; [apply ensure_connected_contained | intros _].
  apply contained_bind.
  - apply contained_first_success. intro v. apply contained_first_success. intro x.
    apply attempt_option_contained.
  - intros [c |]; [apply contained_ret |].
    apply contained_bind; [apply contained_log | intro; apply contained_ret].
Qed.

Lemma qualify_rights_contained symbol_name strike trading_class rights qualified_options :
  contained P (qualify_rights sess enable_oi_streaming symbol_name expiry_date strike
                 trading_class rights qualified_options).
Proof.
  revert qualified_options. induction rights as [| r rest IH]; intro acc; cbn [qualify_rights].
  - apply contained_ret.
  - apply contained_bind; [apply qualify_option_contained | intro; apply IH].
Qed.

Lemma qualify_strikes_contained symbol_name trading_class strikes qualified_options :
  contained P (qualify_strikes sess enable_oi_streaming symbol_name expiry_date
                 trading_class strikes qualified_options).
Proof.
  revert qualified_options. induction strikes as [| k rest IH]; intro acc;
    cbn [qualify_strikes].
  - apply contained_ret.
  - apply contained_bind; [apply qualify_rights_contained | intro; apply IH].
Qed.

Lemma contained_req_tickers contracts :
  contained P (await (fun h => reqTickersAsync sess h contracts) (EvReqTickers contracts)).
Proof.
  intros st r st' Hrun. inversion Hrun; subst. cbn. eexists [_]. repeat split.
  - constructor; [| constructor].
    exact (P_plain (EvReqTickers contracts (reqTickersAsync sess (trace st) contracts))).
  - destruct (reqTickersAsync sess (trace st) contracts) as [ts | e]; [exact I |].
    exists [], [EvReqTickers contracts (Raise e)]. split; [reflexivity | constructor].
Qed.

Lemma spot_price_of_contained symbol_name tickers :
  contained P (spot_price_of symbol_name tickers).
Proof.
  unfold spot_price_of.
  destruct tickers as [| t0 rest].
  - apply contained_bind; [apply contained_print | intro; apply contained_ret].
  - destruct (truthy (Ticker.marketPrice t0) || truthy (Ticker.close t0)).
    + destruct (negb _ || _ || _); [| apply contained_ret].
      apply contained_bind; [apply contained_print | intro; apply contained_ret].
    + apply contained_bind; [apply contained_print | intro; apply contained_ret].
Qed.

Lemma spot_and_strike_contained {B : Type} symbol_name contracts (k : pyfloat -> Z -> M B) :
  (forall p a, contained P (k p a)) ->
  contained P (spot_and_strike sess symbol_name contracts k).
Proof.
  intros Hk st r st' Hrun.
  pose proof (spot_and_strike_run sess symbol_name contracts k st) as Hcases.
  pose proof (P_plain EvSleep) as Hsleep.
  pose proof (fun a => P_plain (EvReqTickers contracts a)) as Hreq.
  destruct (reqTickersAsync sess (trace st) contracts) as [tickers | e].
  - cbv zeta in Hcases.
    destruct Hcases as [(_ & msg & atm & _ & Heq)
                       | [(t0 & rest & q & atm & _ & _ & _ & _ & Heq)
                         | (t0 & rest & -> & Hinf & Heq)]];
      rewrite Heq in Hrun.
    + destruct (Hk _ _ _ _ _ Hrun) as (evs & Htr & HP & Hesc). cbn [trace] in Htr.
      exists ([EvReqTickers contracts (Normal tickers); EvSleep; EvPrint msg] ++ evs).
      split; [| split].
      * rewrite Htr. now rewrite <- !app_assoc.
      * apply Forall_app. split; [| exact HP].
        repeat constructor; auto. exact (P_plain (EvPrint msg)).
      * destruct r as [b | e]; [exact I |].
        destruct Hesc as (earlier & last & -> & Hesc).
        exists ([EvReqTickers contracts (Normal tickers); EvSleep; EvPrint msg] ++ earlier), last.
        split; [now rewrite <- !app_assoc | exact Hesc].
    + destruct (Hk _ _ _ _ _ Hrun) as (evs & Htr & HP & Hesc). cbn [trace] in Htr.
      exists ([EvReqTickers contracts (Normal tickers); EvSleep] ++ evs).
      split; [| split].
      * rewrite Htr. now rewrite <- !app_assoc.
      * apply Forall_app. split; [| exact HP]. repeat constructor; auto.
      * destruct r as [b | e]; [exact I |].
        destruct Hesc as (earlier & last & -> & Hesc).
        exists ([EvReqTickers contracts (Normal tickers); EvSleep] ++ earlier), last.
        split; [now rewrite <- !app_assoc | exact Hesc].
    + inversion Hrun; subst. cbn [trace].
      exists [EvReqTickers contracts (Normal (t0 :: rest)); EvSleep].
      split; [now rewrite <- !app_assoc | split].
      * repeat constructor; auto.
      * exists [], [EvReqTickers contracts (Normal (t0 :: rest)); EvSleep].
        split; [reflexivity | now constructor].
  - rewrite Hcases in Hrun. inversion Hrun; subst. cbn [trace].
    exists [EvReqTickers contracts (Raise e)]. split; [reflexivity | split].
    + repeat constructor; auto.
    + exists [], [EvReqTickers contracts (Raise e)]. split; [reflexivity | constructor].
Qed.

Lemma fetch_symbol_options_contained symbol_name :
  contained P (fetch_symbol_options sess enable_oi_streaming expiry_date symbol_name).
Proof.
  unfold fetch_symbol_options.
  apply contained_bind; [apply qualify_underlying_contained |].
  intros [underlying_contract |].
  2: { apply contained_bind; [apply contained_log | intro; apply contained_ret]. }
  apply (spot_and_strike_contained symbol_name [underlying_contract]
           (fun spot_price atm_strike =>
              qualified_options <-
                qualify_strikes sess enable_oi_streaming symbol_name expiry_date
                  (Some (Contract.tradingClass underlying_contract))
                  (strikes_to_check atm_strike (strike_increment_of symbol_name) 20) [] ;;
              match qualified_options with
              | [] => print (NoQualifiedOptions symbol_name
                               (strikes_to_check atm_strike (strike_increment_of symbol_name) 20)
                               expiry_date) ;;; ret None
              | _ :: _ =>
                  tickers_for_options <-
                    await (fun h => reqTickersAsync sess h qualified_options)
                          (EvReqTickers qualified_options) ;;
                  ret (Some (map (option_data symbol_name spot_price) tickers_for_options,
                             map Ticker.contract tickers_for_options))
              end)).
  intros p a.
  apply contained_bind; [apply qualify_strikes_contained |].
  intros [| c cs].
  - apply contained_bind; [apply contained_print | intro; apply contained_ret].
  - apply contained_bind; [apply contained_req_tickers | intro; apply contained_ret].
Qed.

Lemma enhance_with_oi_contained symbol_name symbol_options_data symbol_contracts :
  contained P (enhance_with_oi sess enable_oi_streaming symbol_name symbol_options_data
                 symbol_contracts).
Proof.
  unfold enhance_with_oi.
  apply contained_bind.
  { intros st r st' Hrun. inversion Hrun; subst. exists []. rewrite app_nil_r. auto. }
  intro fetcher.
  destruct (fetcher && enable_oi_streaming && negb (Nat.eqb (length symbol_options_data) 0)).
  - apply contained_try_except.
    + apply emits_bind; [apply contained_emits, contained_log | intros _].
      apply emits_await. intro r.
      exact (P_plain (EvEnhance symbol_options_data symbol_contracts r)).
    + intro e. apply contained_bind; [apply contained_log | intro; apply contained_ret].
  - apply contained_bind; [| intro; apply contained_ret].
    destruct (negb enable_oi_streaming); [apply contained_log | apply contained_ret].
Qed.

Lemma symbol_records_contained symbol_name :
  contained P (symbol_records sess enable_oi_streaming expiry_date symbol_name).
Proof.
  unfold symbol_records.
  apply contained_bind; [apply fetch_symbol_options_contained |].
  intros [[symbol_options_data symbol_contracts] |];
    [apply enhance_with_oi_contained | apply contained_ret].
Qed.

Lemma for_symbols_contained symbols options_data :
  contained P (for_symbols sess enable_oi_streaming expiry_date symbols options_data).
Proof.
  revert options_data. induction symbols as [| s rest IH]; intro acc; cbn [for_symbols].
  - apply contained_ret.
  - apply contained_bind; [apply symbol_records_contained | intro; apply IH].
Qed.

End ClientContainment.

(** ** What [get_atm_options] lets out *)

Lemma get_atm_options_contained sess enable_oi_streaming symbols days_to_expiry :
  contained (fun _ => True) (get_atm_options sess enable_oi_streaming symbols days_to_expiry).
Proof.
  assert (forall ev : Event, match ev with
                             | EvQualify _ _ => True
                             | _ => True
                             end) as Hplain by (intros []; exact I).
  unfold get_atm_options.
  apply contained_bind; [now apply ensure_connected_contained | intros _].
  destruct symbols as [| s rest]; [apply contained_ret |].
  apply contained_bind.
  - intros st r st' Hrun. inversion Hrun; subst. cbn. eexists [_]. auto.
  - intro expiry_date. now apply for_symbols_contained.
Qed.

(** C3, as the code has it. An exception leaves [get_atm_options] only
    right after a connection check that failed, right after a quote request
    ([reqTickersAsync], for the spot price or for the option batch) that
    raised, or right after the spot quote and the pause that follows it
    when the quoted price is plus infinity, which [round] turns into an
    [OverflowError]; failed qualification attempts and a failed
    open-interest call never leave it. *)
Theorem only_connection_and_quote_failures_escalate :
  forall sess enable_oi_streaming symbols days_to_expiry st e st',
    get_atm_options sess enable_oi_streaming symbols days_to_expiry st = (Raise e, st') ->
    exists earlier last,
      trace st' = trace st ++ earlier ++ last /\ escalates last e.
Proof.
  intros sess enable symbols d st e st' Hrun.
  destruct (get_atm_options_contained sess enable symbols d st _ _ Hrun)
    as (evs & Htr & _ & earlier & last & -> & Hesc).
  exists earlier, last. split; assumption.
Qed.

Lemma only_connection_and_quote_failures_escalate_witness :
  exists e st' earlier last,
    get_atm_options (Mock.session Mock.off_cboe Mock.quotes_fail) false ["SPX"] 0 Mock.start
      = (Raise e, st') /\
    trace st' = trace Mock.start ++ earlier ++ last /\ escalates last e.
Proof.
  pose (run := get_atm_options (Mock.session Mock.off_cboe Mock.quotes_fail) false ["SPX"] 0
                 Mock.start).
  assert (run = (Raise Mock.timeout, snd run)) as Hrun by (vm_compute; reflexivity).
  destruct (only_connection_and_quote_failures_escalate
              (Mock.session Mock.off_cboe Mock.quotes_fail) false ["SPX"] 0 Mock.start
              Mock.timeout (snd run) Hrun)
    as (earlier & ev & Htr & Hesc).
  exists Mock.timeout, (snd run), earlier, ev. auto.
Defined.

(** C3 as stated fails: every connection check of this run succeeds, the
    spot-quote request times out, and the timeout leaves
    [get_atm_options]. *)
Lemma spot_quote_failure_escalates :
  let run := get_atm_options (Mock.session Mock.off_cboe Mock.quotes_fail) false ["SPX"] 0
               Mock.start in
  fst run = Raise Mock.timeout /\
  Forall (fun ev => match ev with
                    | EvConnect answer => answer = Normal true
                    | _ => True
                    end) (trace (snd run)) /\
  last (trace (snd run)) EvSleep
  = EvReqTickers [Mock.resolved (Index "SPX" "SMART" "USD")] (Raise Mock.timeout).
Proof.
  vm_compute. repeat split; repeat constructor.
Qed.

(** ** The expiry *)

Lemma ensure_connected_no_option_request sess enable_oi_streaming :
  emits (fun ev => match ev with
                   | EvQualify c _ => Contract.secType c <> "OPT"
                   | _ => True
                   end) (_ensure_connected sess enable_oi_streaming).
Proof.
  apply contained_emits, ensure_connected_contained. intros []; exact I.
Qed.

Lemma underlying_descriptor_not_option symbol_name sym_variant exchange :
  Contract.secType (Underlying.descriptor symbol_name sym_variant exchange) <> "OPT".
Proof.
  unfold Underlying.descriptor. destruct (str_in symbol_name _); discriminate.
Qed.

Lemma option_descriptor_expiry expiry_date strike right trading_class sym_variant exchange :
  Contract.lastTradeDateOrContractMonth
    (Opt.descriptor expiry_date strike right trading_class sym_variant exchange)
  = expiry_date.
Proof.
  unfold Opt.descriptor. destruct (Opt.hint_given trading_class); [reflexivity |].
  destruct (String.eqb sym_variant "SPXW"); reflexivity.
Qed.

Lemma for_symbols_expiry sess enable_oi_streaming expiry_date symbols options_data :
  emits (option_expiry_is expiry_date)
        (for_symbols sess enable_oi_streaming expiry_date symbols options_data).
Proof.
  apply contained_emits, for_symbols_contained.
  - intros []; exact I.
  - intros s v x a Hopt. now apply underlying_descriptor_not_option in Hopt.
  - intros k r tc v x a _. apply option_descriptor_expiry.
Qed.

(** C10. [days_to_expiry] changes nothing: two calls that differ only in
    it run alike from the same state, and every option contract submitted
    for qualification carries the date the clock gave in this call. *)
Theorem days_to_expiry_is_ignored :
  forall sess enable_oi_streaming symbols d1 d2 st,
    get_atm_options sess enable_oi_streaming symbols d1 st
    = get_atm_options sess enable_oi_streaming symbols d2 st /\
    exists evs,
      trace (snd (get_atm_options sess enable_oi_streaming symbols d1 st)) = trace st ++ evs /\
      forall c a,
        In (EvQualify c a) evs ->
        Contract.secType c = "OPT" ->
        In (EvNow (Contract.lastTradeDateOrContractMonth c)) evs.
Proof.
  intros sess enable symbols d1 d2 st. split; [reflexivity |].
  unfold get_atm_options, bind at 1.
  destruct (_ensure_connected sess enable st) as [r1 st1] eqn:Hrun1.
  destruct (ensure_connected_no_option_request sess enable st _ _ Hrun1)
    as (evs1 & Htr1 & Hno1).
  assert (forall c a, In (EvQualify c a) evs1 -> Contract.secType c <> "OPT") as Hno.
  { intros c a Hin. rewrite Forall_forall in Hno1. exact (Hno1 _ Hin). }
  destruct r1 as [[] | e]; cbn [snd].
  2: { exists evs1. split; [exact Htr1 |]. intros c a Hin Hopt. now apply Hno in Hin. }
  destruct symbols as [| s rest]; cbn [snd ret].
  { exists evs1. split; [exact Htr1 |]. intros c a Hin Hopt. now apply Hno in Hin. }
  unfold bind, today.
  set (d := datetime_now sess (trace st1)).
  set (st2 := mk_State (trace st1 ++ [EvNow d]) (oi_fetcher st1)).
  destruct (for_symbols sess enable d (s :: rest) [] st2) as [r3 st3] eqn:Hrun3.
  destruct (for_symbols_expiry sess enable d (s :: rest) [] st2 _ _ Hrun3)
    as (evs3 & Htr3 & Hexp).
  exists (evs1 ++ [EvNow d] ++ evs3). cbn [snd]. split.
  - rewrite Htr3. unfold st2. cbn [trace]. rewrite Htr1. now rewrite <- !app_assoc.
  - intros c a Hin Hopt. apply in_app_or in Hin. destruct Hin as [Hin | Hin].
    + now apply Hno in Hin.
    + cbn in Hin. destruct Hin as [Heq | Hin]; [discriminate |].
      rewrite Forall_forall in Hexp. rewrite (Hexp _ Hin Hopt).
      apply in_or_app. right. left. reflexivity.
Qed.

(** ** The placeholder spot price *)

Lemma atm_strike_of_placeholder symbol_name :
  atm_strike_of symbol_name (Fin (5000 # 1)) = Normal 5000.
Proof.
  unfold atm_strike_of.
  destruct (str_in symbol_name ["SPX"; "SPXW"; "NDX"]); [reflexivity |].
  destruct (String.eqb symbol_name "SPY"); reflexivity.
Qed.

(** C7, as the code has it. When there is no ticker, or the price is
    non-positive or not a number, the spot price becomes the placeholder
    5000 with a printed notice, and the ATM strike computed from it is 5000
    for every symbol; nothing is raised. *)
Theorem unusable_spot_becomes_placeholder :
  forall symbol_name tickers st,
    unusable_spot tickers ->
    exists msg,
      spot_price_of symbol_name tickers st
      = (Normal (Fin (5000 # 1)),
         mk_State (trace st ++ [EvPrint msg]) (oi_fetcher st)) /\
      atm_strike_of symbol_name (Fin (5000 # 1)) = Normal 5000.
Proof.
  intros symbol_name tickers st Hbad.
  unfold spot_price_of, unusable_spot, quoted_price in *.
  destruct tickers as [| t0 rest].
  - eexists. split; [reflexivity | apply atm_strike_of_placeholder].
  - destruct (truthy (Ticker.marketPrice t0)) eqn:Hmp; cbv beta iota zeta in *;
      cbn [orb negb] in *.
    + rewrite Hmp. cbn [negb orb].
      assert (le0 (Ticker.marketPrice t0) || str_is_nan (Ticker.marketPrice t0) = true)
        as -> by now apply orb_true_iff.
      eexists. split; [reflexivity | apply atm_strike_of_placeholder].
    + destruct (truthy (Ticker.close t0)) eqn:Hcl; cbn [negb orb].
      * assert (le0 (Ticker.close t0) || str_is_nan (Ticker.close t0) = true)
          as -> by now apply orb_true_iff.
        eexists. split; [reflexivity | apply atm_strike_of_placeholder].
      * eexists. split; [reflexivity | apply atm_strike_of_placeholder].
Qed.

Lemma unusable_spot_becomes_placeholder_witness :
  exists msg,
    spot_price_of "SPX" [Mock.priced (Fin (-3 # 1))] Mock.start
    = (Normal (Fin (5000 # 1)),
       mk_State (trace Mock.start ++ [EvPrint msg]) (oi_fetcher Mock.start)) /\
    atm_strike_of "SPX" (Fin (5000 # 1)) = Normal 5000.
Proof.
  apply (unusable_spot_becomes_placeholder "SPX" [Mock.priced (Fin (-3 # 1))] Mock.start).
  left. reflexivity.
Defined.

(** C7 as stated fails: for a spot price of -3, of 0 and of nan the strike
    selection returns the strike 5000 and signals nothing. *)
Lemma invalid_spot_yields_a_strike :
  map (fun p => fst (bind (spot_price_of "SPX" [Mock.priced p])
                          (fun spot_price => lift_outcome (atm_strike_of "SPX" spot_price))
                          Mock.start))
      [Fin (-3 # 1); Fin 0; NaN]
  = [Normal 5000; Normal 5000; Normal 5000].
Proof. reflexivity. Qed.

(** ** The loop over the symbols *)

Lemma for_symbols_acc sess enable_oi_streaming expiry_date symbols acc st :
  for_symbols sess enable_oi_streaming expiry_date symbols acc st
  = prefixed acc (for_symbols sess enable_oi_streaming expiry_date symbols [] st).
Proof.
  revert acc st. induction symbols as [| s rest IH]; intros acc st; cbn [for_symbols].
  - cbn. now rewrite app_nil_r.
  - unfold bind.
    destruct (symbol_records sess enable_oi_streaming expiry_date s st) as [[recs | e] st1];
      [| reflexivity].
    rewrite (IH (acc ++ recs)), (IH ([] ++ recs)). cbn [app].
    destruct (for_symbols sess enable_oi_streaming expiry_date rest [] st1)
      as [[later | e] st2]; cbn; [now rewrite app_assoc | reflexivity].
Qed.

Lemma for_symbols_app sess enable_oi_streaming expiry_date before after acc st :
  for_symbols sess enable_oi_streaming expiry_date (before ++ after) acc st
  = bind (for_symbols sess enable_oi_streaming expiry_date before acc)
         (for_symbols sess enable_oi_streaming expiry_date after) st.
Proof.
  revert acc st. induction before as [| s rest IH]; intros acc st; cbn [for_symbols app].
  - reflexivity.
  - unfold bind in *.
    destruct (symbol_records sess enable_oi_streaming expiry_date s st) as [[recs | e] st1];
      [apply IH | reflexivity].
Qed.

Lemma bind_normal {A B : Type} (m : M A) (k : A -> M B) st b st' :
  bind m k st = (Normal b, st') ->
  exists a st1, m st = (Normal a, st1) /\ k a st1 = (Normal b, st').
Proof.
  unfold bind. destruct (m st) as [[a | e] st1]; [eauto | discriminate].
Qed.

(** ** The fetcher, once set, stays set *)

Lemma keeps_ret {A : Type} (a : A) : keeps_fetcher (ret a).
Proof. intros st r st' H Hf. inversion H; subst. exact Hf. Qed.

Lemma keeps_emit ev : keeps_fetcher (emit ev).
Proof. intros st r st' H Hf. inversion H; subst. exact Hf. Qed.

Lemma keeps_await {A : Type} (answer : list Event -> Outcome A) (ev : Outcome A -> Event) :
  keeps_fetcher (await answer ev).
Proof. intros st r st' H Hf. inversion H; subst. exact Hf. Qed.

Lemma keeps_lift {A : Type} (o : Outcome A) : keeps_fetcher (lift_outcome o).
Proof. intros st r st' H Hf. inversion H; subst. exact Hf. Qed.

Lemma keeps_bind {A B : Type} (m : M A) (k : A -> M B) :
  keeps_fetcher m -> (forall a, keeps_fetcher (k a)) -> keeps_fetcher (bind m k).
Proof.
  intros Hm Hk st r st' H Hf. unfold bind in H.
  destruct (m st) as [[a | e] st1] eqn:Hm1.
  - exact (Hk a st1 r st' H (Hm st _ _ Hm1 Hf)).
  - inversion H; subst. exact (Hm st _ _ Hm1 Hf).
Qed.

Lemma keeps_try_except {A : Type} (body : M A) (handler : exn -> M A) :
  keeps_fetcher body -> (forall e, keeps_fetcher (handler e)) ->
  keeps_fetcher (try_except body handler).
Proof.
  intros Hb Hh st r st' H Hf. unfold try_except in H.
  destruct (body st) as [[a | e] st1] eqn:Hb1.
  - inversion H; subst. exact (Hb st _ _ Hb1 Hf).
  - exact (Hh e st1 r st' H (Hb st _ _ Hb1 Hf)).
Qed.

Lemma keeps_first_success {A B : Type} (body : A -> M (option B)) (items : list A) :
  (forall x, keeps_fetcher (body x)) -> keeps_fetcher (first_success body items).
Proof.
  intro Hbody. induction items as [| x items IH]; cbn [first_success].
  - apply keeps_ret.
  - apply keeps_bind; [apply Hbody |]. intros [v |]; [apply keeps_ret | exact IH].
Qed.

Lemma keeps_entry (q0 : option Contract.t) : keeps_fetcher (attr_of_entry q0).
Proof. intros st r st' H Hf. destruct q0; inversion H; subst; exact Hf. Qed.

Ltac keeps :=
  repeat first
    [ apply keeps_ret | apply keeps_emit | apply keeps_await | apply keeps_lift
    | apply keeps_entry | apply keeps_bind | apply keeps_try_except
    | apply keeps_first_success
    | match goal with
      | |- forall _, _ => intro
      | |- keeps_fetcher (match ?x with _ => _ end) => destruct x
      | |- keeps_fetcher (if ?b then _ else _) => destruct b
      end ].

Section Fetcher.

Variable sess : Session.
Variable enable_oi_streaming : bool.

Lemma ensure_connected_keeps : keeps_fetcher (_ensure_connected sess enable_oi_streaming).
Proof.
  intros st r st' H Hf.
  unfold _ensure_connected, bind, await, get_oi_fetcher, set_oi_fetcher, log, emit, raise, ret
    in H.
  destruct (get_ib_connection sess (trace st)) as [[|] | e]; cbn in H.
  - destruct (enable_oi_streaming && negb (oi_fetcher st)); inversion H; subst; auto.
  - inversion H; subst. exact Hf.
  - inversion H; subst. exact Hf.
Qed.

Lemma ensure_connected_sets st st' :
  enable_oi_streaming = true ->
  _ensure_connected sess enable_oi_streaming st = (Normal tt, st') ->
  oi_fetcher st' = true.
Proof.
  intros -> H.
  unfold _ensure_connected, bind, await, get_oi_fetcher, set_oi_fetcher, log, emit, raise, ret
    in H.
  destruct (get_ib_connection sess (trace st)) as [[|] | e]; cbn in H; try discriminate.
  destruct (oi_fetcher st) eqn:Hf; cbn in H; inversion H; subst; auto.
Qed.

Lemma qualify_underlying_sets symbol_name st r st' :
  enable_oi_streaming = true ->
  qualify_underlying_with_fallback sess enable_oi_streaming symbol_name st = (Normal r, st') ->
  oi_fetcher st' = true.
Proof.
  intros Hon H. unfold qualify_underlying_with_fallback in H.
  apply bind_normal in H. destruct H as ([] & st1 & Hc & H).
  apply ensure_connected_sets in Hc; [| exact Hon].
  match type of H with
  | ?m st1 = _ => assert (keeps_fetcher m) as Hkeeps by (unfold attempt_underlying; keeps)
  end.
  exact (Hkeeps _ _ _ H Hc).
Qed.

Lemma qualify_option_keeps symbol_name expiry_date strike right trading_class :
  keeps_fetcher (qualify_option_with_fallback sess enable_oi_streaming symbol_name
                   expiry_date strike right trading_class).
Proof.
  unfold qualify_option_with_fallback, attempt_option.
  apply keeps_bind; [apply ensure_connected_keeps |]. keeps.
Qed.

Lemma qualify_rights_keeps symbol_name expiry_date strike trading_class rights acc :
  keeps_fetcher (qualify_rights sess enable_oi_streaming symbol_name expiry_date strike
                   trading_class rights acc).
Proof.
  revert acc. induction rights as [| r rest IH]; intro acc; cbn [qualify_rights].
  - apply keeps_ret.
  - apply keeps_bind; [apply qualify_option_keeps | intro; apply IH].
Qed.

Lemma qualify_strikes_keeps symbol_name expiry_date trading_class strikes acc :
  keeps_fetcher (qualify_strikes sess enable_oi_streaming symbol_name expiry_date
                   trading_class strikes acc).
Proof.
  revert acc. induction strikes as [| k rest IH]; intro acc; cbn [qualify_strikes].
  - apply keeps_ret.
  - apply keeps_bind; [apply qualify_rights_keeps | intro; apply IH].
Qed.

Lemma spot_price_of_keeps symbol_name tickers : keeps_fetcher (spot_price_of symbol_name tickers).
Proof. unfold spot_price_of. keeps. Qed.

(** With streaming on, a symbol whose quotes were fetched leaves the
    fetcher set: the connection check at the start of the underlying's
    qualification creates it. *)
Lemma fetch_symbol_options_sets expiry_date symbol_name st fetched st' :
  enable_oi_streaming = true ->
  fetch_symbol_options sess enable_oi_streaming expiry_date symbol_name st
    = (Normal (Some fetched), st') ->
  oi_fetcher st' = true.
Proof.
  intros Hon H. unfold fetch_symbol_options in H.
  apply bind_normal in H. destruct H as (underlying & st1 & Hq & H).
  apply qualify_underlying_sets in Hq; [| exact Hon].
  destruct underlying as [underlying_contract |].
  2: { apply bind_normal in H. destruct H as (? & ? & _ & H). discriminate. }
  match type of H with
  | ?m st1 = _ => assert (keeps_fetcher m) as Hkeeps
  end.
  { apply keeps_bind; [apply keeps_await | intro].
    apply keeps_bind; [apply keeps_emit | intro].
    apply keeps_bind; [apply spot_price_of_keeps | intro].
    apply keeps_bind; [apply keeps_lift | intro].
    apply keeps_bind; [apply qualify_strikes_keeps | intro]. keeps. }
  exact (Hkeeps _ _ _ H Hq).
Qed.

End Fetcher.

(** ** The records of one symbol *)

Lemma fetch_symbol_options_records sess enable_oi_streaming expiry_date symbol_name st
    data contracts st' :
  fetch_symbol_options sess enable_oi_streaming expiry_date symbol_name st
    = (Normal (Some (data, contracts)), st') ->
  exists spot_price tickers,
    data = map (option_data symbol_name spot_price) tickers /\
    contracts = map Ticker.contract tickers.
Proof.
  unfold fetch_symbol_options. intro H.
  apply bind_normal in H. destruct H as ([underlying_contract |] & st1 & _ & H).
  2: { apply bind_normal in H. destruct H as (? & ? & _ & H). discriminate. }
  apply bind_normal in H. destruct H as (tickers & st2 & _ & H).
  apply bind_normal in H. destruct H as (? & st3 & _ & H).
  apply bind_normal in H. destruct H as (spot_price & st4 & _ & H).
  apply bind_normal in H. destruct H as (atm_strike & st5 & _ & H).
  apply bind_normal in H. destruct H as ([| c cs] & st6 & _ & H).
  { apply bind_normal in H. destruct H as (? & ? & _ & H). discriminate. }
  apply bind_normal in H. destruct H as (tickers_for_options & st7 & _ & H).
  inversion H; subst. eauto.
Qed.



Lemma symbol_records_run_of sess enable_oi_streaming expiry_date symbol_name st recs st' :
  symbol_records sess enable_oi_streaming expiry_date symbol_name st = (Normal recs, st') ->
  run_of sess symbol_name recs.
Proof.
  unfold symbol_records. intro H.
  apply bind_normal in H. destruct H as ([[data contracts] |] & st1 & Hfetch & H).
  2: { inversion H; subst. exists (Fin (5000 # 1)), []. left. reflexivity. }
  destruct (fetch_symbol_options_records _ _ _ _ _ _ _ _ Hfetch)
    as (spot_price & tickers & -> & ->).
  exists spot_price, tickers. cbv zeta.
  unfold enhance_with_oi, bind at 1, get_oi_fetcher in H.
  destruct (oi_fetcher st1 && enable_oi_streaming && _).
  - unfold try_except, bind, log, emit, await in H. cbn [trace oi_fetcher] in H.
    destruct (enhance_options_with_oi sess _ _ _) as [enhanced | e] eqn:Hcall;
      inversion H; subst; [right; eauto | left; reflexivity].
  - left. unfold bind in H. destruct (negb enable_oi_streaming); inversion H; reflexivity.
Qed.

Lemma for_symbols_entry_runs sess enable_oi_streaming expiry_date symbols acc st recs st' :
  for_symbols sess enable_oi_streaming expiry_date symbols acc st = (Normal recs, st') ->
  exists new, recs = acc ++ new /\ entry_runs sess symbols new.
Proof.
  revert acc st. induction symbols as [| s rest IH]; intros acc st H; cbn [for_symbols] in H.
  - inversion H; subst. exists []. rewrite app_nil_r. split; [reflexivity | constructor].
  - apply bind_normal in H. destruct H as (recs_s & st1 & Hs & H).
    apply symbol_records_run_of in Hs.
    destruct (IH _ _ H) as (new & -> & Hnew).
    exists (recs_s ++ new). rewrite app_assoc. split; [reflexivity |].
    now constructor.
Qed.

(** C9, as the code has it. The records built from the quotes of one entry
    of [symbols] all carry the canonical symbol and the one spot price, and
    each takes its [underlying_symbol] from the contract of its own quote;
    every call of [qualify_option_with_fallback], one per strike and right,
    searches the alias-exchange combinations again from the first; and the
    result of one invocation is one run of records per entry of [symbols],
    in their order, each run built with one spot price or returned by the
    open-interest call for the records so built. *)
Theorem alias_is_resolved_per_contract :
  forall sess enable_oi_streaming expiry_date symbol_name,
    (forall st data contracts st',
        fetch_symbol_options sess enable_oi_streaming expiry_date symbol_name st
          = (Normal (Some (data, contracts)), st') ->
        map OptionData.underlying_symbol data = map Contract.symbol contracts /\
        exists spot_price,
          Forall (fun r => OptionData.symbol r = symbol_name /\
                           OptionData.underlying_price_at_fetch r = spot_price) data) /\
    (forall strike right trading_class st,
        get_ib_connection sess (trace st) = Normal true ->
        exists r st' evs,
          qualify_option_with_fallback sess enable_oi_streaming symbol_name expiry_date
            strike right trading_class st = (Normal r, st') /\
          trace st' = trace st ++ evs /\
          search_log (option_candidates symbol_name expiry_date strike right trading_class)
                     (attempts evs) r) /\
    (forall symbols days_to_expiry st recs st',
        get_atm_options sess enable_oi_streaming symbols days_to_expiry st
          = (Normal recs, st') ->
        entry_runs sess symbols recs).
Proof.
  intros sess enable expiry symbol_name. split; [| split].
  - intros st data contracts st' Hfetch.
    destruct (fetch_symbol_options_records _ _ _ _ _ _ _ _ Hfetch)
      as (spot_price & tickers & -> & ->).
    split.
    + rewrite !map_map. reflexivity.
    + exists spot_price. apply Forall_map, Forall_forall. intros t _. split; reflexivity.
  - intros strike right trading_class st Hlive.
    destruct (qualify_option_run sess enable symbol_name expiry strike right trading_class
                st Hlive) as (r & st' & evs & Hrun & Htr & Hlog & _).
    exists r, st', evs. repeat split; assumption.
  - intros symbols d st recs st' H. unfold get_atm_options in H.
    apply bind_normal in H. destruct H as ([] & st1 & _ & H).
    destruct symbols as [| s rest].
    + inversion H; subst. constructor.
    + apply bind_normal in H. destruct H as (expiry_date & st2 & _ & H).
      apply for_symbols_entry_runs in H. destruct H as (new & -> & Hnew). exact Hnew.
Qed.

Lemma alias_is_resolved_per_contract_witness :
  let sess := Mock.session Mock.weekly_at_5000 Mock.quotes_ok in
  (exists r st' evs,
     qualify_option_with_fallback sess false "SPX" "20250117" 4995 "P" (Some EmptyString)
       Mock.start = (Normal r, st') /\
     trace st' = trace Mock.start ++ evs /\
     search_log (option_candidates "SPX" "20250117" 4995 "P" (Some EmptyString))
                (attempts evs) r) /\
  (exists spot_price,
     Forall (fun r => OptionData.symbol r = "SPX" /\
                      OptionData.underlying_price_at_fetch r = spot_price)
            (match fst (fetch_symbol_options sess false "20250117" "SPX" Mock.start) with
             | Normal (Some (data, _)) => data
             | _ => []
             end)) /\
  entry_runs sess ["SPX"; "SPX"]
    (match fst (get_atm_options sess false ["SPX"; "SPX"] 0 Mock.start) with
     | Normal recs => recs
     | Raise _ => []
     end).
Proof.
  intro sess.
  destruct (alias_is_resolved_per_contract sess false "20250117" "SPX")
    as (Hfetch & Hsearch & Hruns).
  split; [| split].
  - apply (Hsearch 4995 "P" (Some EmptyString) Mock.start). reflexivity.
  - pose (fetched := fetch_symbol_options sess false "20250117" "SPX" Mock.start).
    pose (data := match fst fetched with
                  | Normal (Some (data, _)) => data
                  | _ => []
                  end).
    pose (contracts := match fst fetched with
                       | Normal (Some (_, contracts)) => contracts
                       | _ => []
                       end).
    assert (fetched = (Normal (Some (data, contracts)), snd fetched)) as Hrun
      by (vm_compute; reflexivity).
    exact (proj2 (Hfetch Mock.start data contracts (snd fetched) Hrun)).
  - pose (run := get_atm_options sess false ["SPX"; "SPX"] 0 Mock.start).
    pose (recs := match fst run with
                  | Normal recs => recs
                  | Raise _ => []
                  end).
    assert (run = (Normal recs, snd run)) as Hrun by (vm_compute; reflexivity).
    exact (Hruns ["SPX"; "SPX"] 0 Mock.start recs (snd run) Hrun).
Defined.

(** C9 as stated fails: in this call for SPX the 4995 call is qualified as
    SPX and the 5000 call as SPXW, and both records are in the result. *)
Lemma one_symbol_mixes_aliases :
  let run := get_atm_options (Mock.session Mock.weekly_at_5000 Mock.quotes_ok) false ["SPX"] 0
               Mock.start in
  let recs := match fst run with
              | Normal recs => recs
              | Raise _ => []
              end in
  map (fun r => (OptionData.symbol r, OptionData.underlying_symbol r,
                 OptionData.strike r, OptionData.right r))
      (firstn 1 (skipn 38 recs) ++ firstn 1 (skipn 40 recs))
  = [("SPX", "SPX", 4995, "C"); ("SPX", "SPXW", 5000, "C")].
Proof. vm_compute. reflexivity. Qed.

(** ** What a call returns on a steady session *)

Lemma first_accepted_none answer candidates :
  (forall d, In d candidates -> accepted (answer d) = None) ->
  first_accepted answer candidates = None.
Proof.
  induction candidates as [| d rest IH]; intro Hall; cbn [first_accepted]; [reflexivity |].
  rewrite (Hall d) by (left; reflexivity). apply IH. intros d' Hin. apply Hall. now right.
Qed.

Lemma spot_of_placeholder tickers : unusable_spot tickers -> spot_of tickers = Fin (5000 # 1).
Proof.
  destruct tickers as [| t0 rest]; cbn; [reflexivity |].
  intros [H | H]; rewrite H; [reflexivity | now rewrite orb_true_r].
Qed.

Lemma spot_of_quoted t0 rest q :
  quoted_price t0 = Fin q -> (0 < q)%Q -> spot_of (t0 :: rest) = Fin q.
Proof.
  intros Hprice Hpos. unfold spot_of. rewrite Hprice. cbn.
  destruct (Qle_bool q 0) eqn:Hle; [| reflexivity].
  apply Qle_bool_iff in Hle. lra.
Qed.

Lemma fetch_symbol_options_qualified sess enable_oi_streaming expiry_date symbol_name st
    underlying_contract st1 :
  qualify_underlying_with_fallback sess enable_oi_streaming symbol_name st
    = (Normal (Some underlying_contract), st1) ->
  fetch_symbol_options sess enable_oi_streaming expiry_date symbol_name st
  = spot_and_strike sess symbol_name [underlying_contract]
      (options_around sess enable_oi_streaming expiry_date symbol_name underlying_contract) st1.
Proof.
  intro Hq. unfold fetch_symbol_options, bind at 1. rewrite Hq. reflexivity.
Qed.

Lemma expected_result_skip sess enable_oi_streaming expiry_date before symbol_name after :
  expected_records sess enable_oi_streaming expiry_date symbol_name = Normal [] ->
  expected_result sess enable_oi_streaming expiry_date (before ++ symbol_name :: after)
  = expected_result sess enable_oi_streaming expiry_date (before ++ after).
Proof.
  intro Hskip. induction before as [| s rest IH]; cbn [app expected_result].
  - rewrite Hskip.
    destruct (expected_result sess enable_oi_streaming expiry_date after); reflexivity.
  - now rewrite IH.
Qed.

Section Steady.

Variable sess : Session.
Variable enable_oi_streaming : bool.
Variable expiry_date : string.

Hypothesis session_is_steady : steady sess.

Lemma search_log_first_accepted ds log r :
  search_log ds log r -> Forall (answered_by sess) log ->
  r = first_accepted (qualifyContractsAsync sess []) ds.
Proof.
  destruct session_is_steady as (_ & Hqualify & _).
  induction 1 as [| d ds a c Hacc | d ds a log r Hacc Hlog IH]; intro Hall;
    cbn [first_accepted]; [reflexivity | |];
    inversion Hall as [| ? ? [h Hh] Hrest]; subst; cbn in Hh; rewrite Hqualify in Hh;
    rewrite <- Hh, Hacc; [reflexivity | exact (IH Hrest)].
Qed.

Lemma steady_underlying symbol_name st :
  exists st',
    qualify_underlying_with_fallback sess enable_oi_streaming symbol_name st
    = (Normal (first_accepted (qualifyContractsAsync sess [])
                 (underlying_candidates symbol_name)), st').
Proof.
  destruct (qualify_underlying_run sess enable_oi_streaming symbol_name st
              (proj1 session_is_steady _)) as (r & st' & evs & Hrun & _ & Hlog & Hans).
  exists st'. rewrite Hrun. now rewrite (search_log_first_accepted _ _ _ Hlog Hans).
Qed.

Lemma steady_option symbol_name strike right trading_class st :
  exists st',
    qualify_option_with_fallback sess enable_oi_streaming symbol_name expiry_date strike right
      trading_class st
    = (Normal (first_accepted (qualifyContractsAsync sess [])
                 (option_candidates symbol_name expiry_date strike right trading_class)), st').
Proof.
  destruct (qualify_option_run sess enable_oi_streaming symbol_name expiry_date strike right
              trading_class st (proj1 session_is_steady _))
    as (r & st' & evs & Hrun & _ & Hlog & Hans).
  exists st'. rewrite Hrun. now rewrite (search_log_first_accepted _ _ _ Hlog Hans).
Qed.

Lemma steady_rights symbol_name strike trading_class rights acc st :
  exists st',
    qualify_rights sess enable_oi_streaming symbol_name expiry_date strike trading_class rights
      acc st
    = (Normal (acc ++ flat_map
                        (fun right =>
                           match first_accepted (qualifyContractsAsync sess [])
                                   (option_candidates symbol_name expiry_date strike right
                                      trading_class) with
                           | Some c => [c]
                           | None => []
                           end) rights), st').
Proof.
  revert acc st. induction rights as [| r rest IH]; intros acc st;
    cbn [qualify_rights flat_map].
  - exists st. now rewrite app_nil_r.
  - destruct (steady_option symbol_name strike r trading_class st) as [st1 Hopt].
    unfold bind. rewrite Hopt.
    destruct (first_accepted _ _) as [c |].
    + destruct (IH (acc ++ [c]) st1) as [st' ->]. exists st'. now rewrite <- app_assoc.
    + apply IH.
Qed.

Lemma steady_strikes symbol_name trading_class strikes acc st :
  exists st',
    qualify_strikes sess enable_oi_streaming symbol_name expiry_date (Some trading_class)
      strikes acc st
    = (Normal (acc ++ flat_map
                        (fun strike =>
                           flat_map
                             (fun right =>
                                match first_accepted (qualifyContractsAsync sess [])
                                        (option_candidates symbol_name expiry_date strike right
                                           (Some trading_class)) with
                                | Some c => [c]
                                | None => []
                                end) ["C"; "P"]) strikes), st').
Proof.
  revert acc st. induction strikes as [| k rest IH]; intros acc st;
    cbn [qualify_strikes flat_map].
  - exists st. now rewrite app_nil_r.
  - destruct (steady_rights symbol_name k (Some trading_class) ["C"; "P"] acc st)
      as [st1 Hrights].
    unfold bind. rewrite Hrights.
    destruct (IH (acc ++ flat_map
                            (fun right =>
                               match first_accepted (qualifyContractsAsync sess [])
                                       (option_candidates symbol_name expiry_date k right
                                          (Some trading_class)) with
                               | Some c => [c]
                               | None => []
                               end) ["C"; "P"]) st1) as [st' ->].
    exists st'. now rewrite <- app_assoc.
Qed.

Lemma steady_options_around symbol_name underlying_contract spot_price atm_strike st :
  fst (options_around sess enable_oi_streaming expiry_date symbol_name underlying_contract
         spot_price atm_strike st)
  = match expected_contracts sess expiry_date symbol_name
            (Contract.tradingClass underlying_contract) atm_strike with
    | [] => Normal None
    | c :: cs =>
        match reqTickersAsync sess [] (c :: cs) with
        | Raise e => Raise e
        | Normal quotes =>
            Normal (Some (map (option_data symbol_name spot_price) quotes,
                          map Ticker.contract quotes))
        end
    end.
Proof.
  destruct session_is_steady as (_ & _ & Hquotes & _).
  unfold options_around. cbv zeta.
  destruct (steady_strikes symbol_name (Contract.tradingClass underlying_contract)
              (strikes_to_check atm_strike (strike_increment_of symbol_name) 20) [] st)
    as [st1 Hstrikes].
  unfold bind at 1. rewrite Hstrikes. cbn [app]. fold (expected_contracts sess expiry_date
    symbol_name (Contract.tradingClass underlying_contract) atm_strike).
  destruct (expected_contracts _ _ _ _ _) as [| c cs]; [reflexivity |].
  unfold bind, await. rewrite Hquotes.
  destruct (reqTickersAsync sess [] (c :: cs)); reflexivity.
Qed.

Lemma steady_fetch symbol_name st :
  fst (fetch_symbol_options sess enable_oi_streaming expiry_date symbol_name st)
  = expected_fetch sess expiry_date symbol_name.
Proof.
  destruct session_is_steady as (_ & _ & Hquotes & _).
  destruct (steady_underlying symbol_name st) as [st1 Hq].
  unfold expected_fetch.
  destruct (first_accepted _ (underlying_candidates symbol_name)) as [uc |].
  2: { unfold fetch_symbol_options, bind at 1. rewrite Hq. reflexivity. }
  rewrite (fetch_symbol_options_qualified _ _ _ _ _ _ _ Hq).
  pose proof (spot_and_strike_run sess symbol_name [uc]
                (options_around sess enable_oi_streaming expiry_date symbol_name uc) st1)
    as Hcases.
  rewrite Hquotes in Hcases.
  destruct (reqTickersAsync sess [] [uc]) as [tickers | e]; [| now rewrite Hcases].
  cbv zeta in Hcases |- *.
  destruct Hcases as [(Hun & msg & atm & Hatm & ->)
                     | [(t0 & rest & q & atm & -> & Hprice & Hpos & Hatm & ->)
                       | (t0 & rest & -> & Hinf & ->)]].
  - rewrite (spot_of_placeholder _ Hun), Hatm. apply steady_options_around.
  - rewrite (spot_of_quoted _ _ _ Hprice Hpos), Hatm. apply steady_options_around.
  - unfold spot_of. rewrite Hinf. cbn [le0 str_is_nan orb].
    now rewrite atm_strike_of_infinite.
Qed.

Lemma steady_records symbol_name st :
  fst (symbol_records sess enable_oi_streaming expiry_date symbol_name st)
  = expected_records sess enable_oi_streaming expiry_date symbol_name.
Proof.
  destruct session_is_steady as (_ & _ & _ & _ & Henhance).
  unfold expected_records. rewrite <- (steady_fetch symbol_name st).
  unfold symbol_records, bind at 1.
  destruct (fetch_symbol_options sess enable_oi_streaming expiry_date symbol_name st)
    as [[[[data contracts] |] | e] st1] eqn:Hfetch; cbn [fst]; [| reflexivity | reflexivity].
  unfold enhance_with_oi, bind at 1, get_oi_fetcher.
  destruct enable_oi_streaming eqn:Hon.
  - rewrite (fetch_symbol_options_sets sess true expiry_date symbol_name st _ st1 eq_refl
               Hfetch).
    cbn [andb]. destruct (negb (Nat.eqb (length data) 0)); [| reflexivity].
    unfold try_except, bind, log, emit, await. cbn [trace oi_fetcher].
    rewrite Henhance.
    destruct (enhance_options_with_oi sess [] data contracts); reflexivity.
  - rewrite andb_false_r. reflexivity.
Qed.

Lemma steady_for_symbols symbols acc st :
  fst (for_symbols sess enable_oi_streaming expiry_date symbols acc st)
  = match expected_result sess enable_oi_streaming expiry_date symbols with
    | Normal recs => Normal (acc ++ recs)
    | Raise e => Raise e
    end.
Proof.
  revert acc st. induction symbols as [| s rest IH]; intros acc st;
    cbn [for_symbols expected_result].
  - cbn. now rewrite app_nil_r.
  - pose proof (steady_records s st) as Hs. unfold bind.
    destruct (symbol_records sess enable_oi_streaming expiry_date s st) as [[recs | e] st1];
      cbn [fst] in Hs; rewrite <- Hs; [| reflexivity].
    rewrite IH.
    destruct (expected_result sess enable_oi_streaming expiry_date rest);
      [now rewrite app_assoc | reflexivity].
Qed.

End Steady.

Lemma steady_get_atm_options sess enable_oi_streaming symbols days_to_expiry st :
  steady sess ->
  fst (get_atm_options sess enable_oi_streaming symbols days_to_expiry st)
  = expected_result sess enable_oi_streaming (datetime_now sess []) symbols.
Proof.
  intro Hsteady. pose proof Hsteady as (Hlive & _ & _ & Hnow & _).
  destruct (ensure_connected_live sess enable_oi_streaming st (Hlive _))
    as (st1 & evs & Hc & _).
  unfold get_atm_options, bind at 1. rewrite Hc.
  destruct symbols as [| s rest]; [reflexivity |].
  unfold bind at 1, today. rewrite Hnow.
  rewrite (steady_for_symbols sess enable_oi_streaming _ Hsteady).
  destruct (expected_result _ _ _ _); reflexivity.
Qed.

(** C4. When the underlying of a symbol qualifies under no combination,
    the symbol adds no record and nothing is raised for it; the result of
    the call is the records of the symbols before it followed by those of
    the symbols after it, which are processed from the state it leaves.
    And on a session that stays live and answers the same way throughout,
    the call returns, for the symbols other than that one and in their
    order, the records of the option quotes the session gives for the
    contracts it accepts around each symbol's strike at the money. *)
Theorem unqualified_symbol_is_skipped :
  forall sess enable_oi_streaming before symbol_name after days_to_expiry st,
    (forall expiry_date st0 acc st1 st2,
        bind (_ensure_connected sess enable_oi_streaming) (fun _ => today sess) st
          = (Normal expiry_date, st0) ->
        for_symbols sess enable_oi_streaming expiry_date before [] st0 = (Normal acc, st1) ->
        qualify_underlying_with_fallback sess enable_oi_streaming symbol_name st1
          = (Normal None, st2) ->
        let st3 := mk_State (trace st2 ++ [EvLog ERROR (CouldNotQualifyUnderlying symbol_name)])
                            (oi_fetcher st2) in
        symbol_records sess enable_oi_streaming expiry_date symbol_name st1 = (Normal [], st3) /\
        get_atm_options sess enable_oi_streaming (before ++ symbol_name :: after)
          days_to_expiry st
        = prefixed acc (for_symbols sess enable_oi_streaming expiry_date after [] st3)) /\
    (steady sess ->
     (forall d, In d (underlying_candidates symbol_name) ->
                accepted (qualifyContractsAsync sess [] d) = None) ->
     expected_records sess enable_oi_streaming (datetime_now sess []) symbol_name = Normal [] /\
     fst (get_atm_options sess enable_oi_streaming (before ++ symbol_name :: after)
            days_to_expiry st)
     = expected_result sess enable_oi_streaming (datetime_now sess []) (before ++ after)).
Proof.
  intros sess enable before s after d st. split.
  - intros expiry st0 acc st1 st2 Hpre Hbefore Hqual st3.
    assert (symbol_records sess enable expiry s st1 = (Normal [], st3)) as Hskip.
    { unfold symbol_records, fetch_symbol_options, bind. rewrite Hqual. reflexivity. }
    split; [exact Hskip |].
    unfold get_atm_options. unfold bind in Hpre |- *.
    destruct (_ensure_connected sess enable st) as [[[] | e] sta]; [| discriminate].
    assert (exists x rest, before ++ s :: after = x :: rest) as (x & rest & Hne)
      by (destruct before; cbn; eauto).
    rewrite Hne, Hpre, <- Hne.
    rewrite for_symbols_app. unfold bind. rewrite Hbefore.
    cbn [for_symbols]. unfold bind. rewrite Hskip. rewrite app_nil_r.
    apply for_symbols_acc.
  - intros Hsteady Hrejected.
    assert (expected_records sess enable (datetime_now sess []) s = Normal []) as Hskip.
    { unfold expected_records, expected_fetch.
      now rewrite (first_accepted_none _ _ Hrejected). }
    split; [exact Hskip |].
    rewrite (steady_get_atm_options sess enable _ d st Hsteady).
    now apply expected_result_skip.
Qed.

Lemma unqualified_symbol_is_skipped_witness :
  let sess := Mock.session Mock.no_vix Mock.quotes_ok in
  let pre := bind (_ensure_connected sess false) (fun _ => today sess) Mock.start in
  let before := for_symbols sess false "20250117" ["SPY"] [] (snd pre) in
  let acc := match fst before with
             | Normal recs => recs
             | Raise _ => []
             end in
  let skipped := qualify_underlying_with_fallback sess false "VIX" (snd before) in
  let st3 := mk_State (trace (snd skipped) ++ [EvLog ERROR (CouldNotQualifyUnderlying "VIX")])
                      (oi_fetcher (snd skipped)) in
  (symbol_records sess false "20250117" "VIX" (snd before) = (Normal [], st3) /\
   get_atm_options sess false (["SPY"] ++ "VIX" :: ["QQQ"]) 0 Mock.start
   = prefixed acc (for_symbols sess false "20250117" ["QQQ"] [] st3)) /\
  (steady sess /\
   expected_records sess false "20250117" "VIX" = Normal [] /\
   fst (get_atm_options sess false (["SPY"] ++ "VIX" :: ["QQQ"]) 0 Mock.start)
   = expected_result sess false "20250117" (["SPY"] ++ ["QQQ"]) /\
   exists recs,
     expected_result sess false "20250117" (["SPY"] ++ ["QQQ"]) = Normal recs /\
     map OptionData.symbol recs = repeat "SPY" 82 ++ repeat "QQQ" 82).
Proof.
  intros sess pre before acc skipped st3.
  destruct (unqualified_symbol_is_skipped sess false ["SPY"] "VIX" ["QQQ"] 0 Mock.start)
    as [Hrun Hsteady].
  assert (steady sess) as Hs by (repeat split).
  split.
  - apply (Hrun "20250117" (snd pre) acc (snd before) (snd skipped));
      vm_compute; reflexivity.
  - split; [exact Hs |].
    destruct (Hsteady Hs) as [Hskip Hresult].
    { intros d [<- | [<- | []]]; reflexivity. }
    split; [exact Hskip | split; [exact Hresult |]].
    eexists. split; vm_compute; reflexivity.
Defined.

(** * Further properties *)

(** ** Without a connection *)

(** X1. When the connection check does not yield a live handle, each of
    [qualify_underlying_with_fallback], [qualify_option_with_fallback],
    [get_atm_options] and [get_positions] stops there: it raises the
    [ConnectionError] of [_ensure_connected] (or what the connection manager
    raised), having recorded the check and nothing else, and leaves the
    fetcher as it was. *)
Theorem no_connection_no_call :
  forall sess enable_oi_streaming ib_positions py_int symbol_name expiry_date strike right
         trading_class symbols days_to_expiry st,
    get_ib_connection sess (trace st) <> Normal true ->
    let answer := get_ib_connection sess (trace st) in
    let e := match answer with
             | Raise e => e
             | Normal _ => connection_error
             end in
    let st' := mk_State (trace st ++ [EvConnect answer]) (oi_fetcher st) in
    qualify_underlying_with_fallback sess enable_oi_streaming symbol_name st = (Raise e, st') /\
    qualify_option_with_fallback sess enable_oi_streaming symbol_name expiry_date strike right
      trading_class st = (Raise e, st') /\
    get_atm_options sess enable_oi_streaming symbols days_to_expiry st = (Raise e, st') /\
    get_positions sess enable_oi_streaming ib_positions py_int st = (Raise e, st').
Proof.
  intros sess enable ib_positions py_int symbol_name expiry strike right tc symbols d st Hdown
         answer e st'.
  assert (_ensure_connected sess enable st = (Raise e, st')) as Hcheck.
  { unfold _ensure_connected, bind, await, raise. subst e st' answer.
    destruct (get_ib_connection sess (trace st)) as [[|] | e0]; [congruence | |]; reflexivity. }
  repeat split.
  - unfold qualify_underlying_with_fallback, bind at 1. now rewrite Hcheck.
  - unfold qualify_option_with_fallback, bind at 1. now rewrite Hcheck.
  - unfold get_atm_options, bind at 1. now rewrite Hcheck.
  - unfold get_positions, bind at 1. now rewrite Hcheck.
Qed.

Lemma no_connection_no_call_witness :
  let sess := mk_Session (fun _ => Normal false) (fun _ _ => Normal []) (fun _ _ => Normal [])
                (fun _ => "20250117") (fun _ _ _ => Normal []) in
  get_atm_options sess true ["SPX"; "SPY"] 0 Mock.start
  = (Raise connection_error, mk_State [EvConnect (Normal false)] false).
Proof.
  intro sess.
  destruct (no_connection_no_call sess true (fun _ => []) MockPositions.int_100 "SPX"
              "20250117" 5000 "C" None ["SPX"; "SPY"] 0 Mock.start)
    as (_ & _ & Hatm & _).
  - discriminate.
  - exact Hatm.
Defined.

(** ** Positions *)

Section PositionsProofs.

Variable sess : Session.
Variable enable_oi_streaming : bool.
Variable ib_positions : list Event -> list Position.t.
Variable py_int : string -> Outcome Z.

Lemma for_positions_parsed positions acc :
  Forall (fun pos => is_option_position pos = true ->
                     exists m, multiplier_of py_int pos = Normal m) positions ->
  exists ms,
    for_positions py_int positions acc
    = Normal (acc ++ map (fun pm => position_data (fst pm) (snd pm))
                         (combine (filter is_option_position positions) ms)) /\
    length ms = length (filter is_option_position positions) /\
    Forall (fun pm => multiplier_of py_int (fst pm) = Normal (snd pm))
           (combine (filter is_option_position positions) ms).
Proof.
  intro Hall. revert acc. induction Hall as [| pos rest Hpos Hrest IH]; intro acc.
  - exists []. cbn. rewrite app_nil_r. auto.
  - cbn [for_positions filter]. unfold is_option_position in *.
    destruct (String.eqb (Contract.secType (Position.contract pos)) "OPT").
    + destruct (Hpos eq_refl) as [m Hm]. rewrite Hm.
      destruct (IH (acc ++ [position_data pos m])) as (ms & Hrun & Hlen & Hms).
      exists (m :: ms). cbn. rewrite Hrun, <- app_assoc. cbn.
      repeat split; auto.
    + exact (IH acc).
Qed.

Lemma for_positions_unparsed positions acc before pos rest e :
  positions = before ++ pos :: rest ->
  Forall (fun p => is_option_position p = true ->
                   exists m, multiplier_of py_int p = Normal m) before ->
  is_option_position pos = true ->
  multiplier_of py_int pos = Raise e ->
  for_positions py_int positions acc = Raise e.
Proof.
  intros -> Hbefore Hopt Hbad. revert acc.
  induction Hbefore as [| p ps Hp Hps IH]; intro acc; cbn [for_positions app].
  - unfold is_option_position in Hopt. rewrite Hopt, Hbad. reflexivity.
  - unfold is_option_position in Hp.
    destruct (String.eqb (Contract.secType (Position.contract p)) "OPT").
    + destruct (Hp eq_refl) as [m ->]. apply IH.
    + apply IH.
Qed.

End PositionsProofs.

(** X2. With a live connection and every option position's multiplier
    either empty or readable by [int], [get_positions] returns one entry
    per option position, in the order of [ib.positions()], and no entry
    for any other position; each entry copies the contract's symbol,
    identifier, strike, right and expiry and the position's quantity and
    average cost, with the multiplier read by [int], 100 standing in for an
    empty one. *)
Theorem get_positions_lists_option_positions :
  forall sess enable_oi_streaming ib_positions py_int st,
    get_ib_connection sess (trace st) = Normal true ->
    (forall h pos, In pos (ib_positions h) -> is_option_position pos = true ->
                   Position.multiplier pos <> EmptyString ->
                   exists m, py_int (Position.multiplier pos) = Normal m) ->
    exists st' ms,
      get_positions sess enable_oi_streaming ib_positions py_int st
      = (Normal (map (fun pm => position_data (fst pm) (snd pm))
                     (combine (filter is_option_position (ib_positions (trace st'))) ms)),
         st') /\
      length ms = length (filter is_option_position (ib_positions (trace st'))) /\
      Forall (fun pm => snd pm = 100 /\ Position.multiplier (fst pm) = EmptyString \/
                        py_int (Position.multiplier (fst pm)) = Normal (snd pm))
             (combine (filter is_option_position (ib_positions (trace st'))) ms).
Proof.
  intros sess enable ib_positions py_int st Hlive Hreadable.
  destruct (ensure_connected_live sess enable st Hlive) as (st1 & evs & Hrun & _ & _).
  assert (Forall (fun pos => is_option_position pos = true ->
                             exists m, multiplier_of py_int pos = Normal m)
                 (ib_positions (trace st1))) as Hall.
  { apply Forall_forall. intros pos Hin Hopt. unfold multiplier_of.
    destruct (String.eqb_spec (Position.multiplier pos) EmptyString) as [Hempty | Hfull].
    - eauto.
    - eapply Hreadable; eauto. }
  destruct (for_positions_parsed py_int (ib_positions (trace st1)) [] Hall)
    as (ms & Hfor & Hlen & Hms).
  exists st1, ms. unfold get_positions, bind. rewrite Hrun, Hfor. cbn [app].
  repeat split; auto.
  apply Forall_impl with (2 := Hms). intros [pos m]. cbn [fst snd]. unfold multiplier_of.
  destruct (String.eqb_spec (Position.multiplier pos) EmptyString) as [Hempty | Hfull].
  - intro H. inversion H. auto.
  - auto.
Qed.

Lemma get_positions_lists_option_positions_witness :
  exists st' ms,
    get_positions (Mock.session Mock.off_cboe Mock.quotes_ok) false
      (fun _ => MockPositions.held) MockPositions.int_100 Mock.start
    = (Normal (map (fun pm => position_data (fst pm) (snd pm))
                   (combine (filter is_option_position MockPositions.held) ms)), st') /\
    length ms = 2%nat.
Proof.
  destruct (get_positions_lists_option_positions
              (Mock.session Mock.off_cboe Mock.quotes_ok) false
              (fun _ => MockPositions.held) MockPositions.int_100 Mock.start eq_refl)
    as (st' & ms & Hrun & Hlen & _).
  - intros _ pos Hin _ Hfull. cbn in Hin.
    destruct Hin as [<- | [<- | [<- | []]]]; cbn in *; try congruence.
    exists 100. reflexivity.
  - exists st', ms. split; [exact Hrun | exact Hlen].
Defined.

(** X3. [get_positions] has no handler around [int]: when the multiplier
    of an option position cannot be read, and those of the option
    positions before it can, the error of [int] leaves [get_positions] and
    no entry is returned, not even for the positions before. *)
Theorem get_positions_unreadable_multiplier :
  forall sess enable_oi_streaming ib_positions py_int st st' before pos rest e,
    _ensure_connected sess enable_oi_streaming st = (Normal tt, st') ->
    ib_positions (trace st') = before ++ pos :: rest ->
    Forall (fun p => is_option_position p = true ->
                     exists m, multiplier_of py_int p = Normal m) before ->
    is_option_position pos = true ->
    Position.multiplier pos <> EmptyString ->
    py_int (Position.multiplier pos) = Raise e ->
    get_positions sess enable_oi_streaming ib_positions py_int st = (Raise e, st').
Proof.
  intros sess enable ib_positions py_int st st' before pos rest e Hrun Hsplit Hbefore Hopt
         Hfull Hbad.
  unfold get_positions, bind. rewrite Hrun. f_equal.
  apply for_positions_unparsed with (before := before) (pos := pos) (rest := rest); auto.
  unfold multiplier_of. destruct (String.eqb_spec (Position.multiplier pos) EmptyString);
    [contradiction | exact Hbad].
Qed.

Lemma get_positions_unreadable_multiplier_witness :
  let bad := Position.mk (Mock.resolved (Option "SPX" "20250117" 5000 "C" "SMART" "USD"))
               "1e2" (Fin (1 # 1)) (Fin (12 # 1)) in
  fst (get_positions (Mock.session Mock.off_cboe Mock.quotes_ok) false
         (fun _ => MockPositions.held ++ [bad]) MockPositions.int_100 Mock.start)
  = Raise (mk_exn "ValueError" "invalid literal for int() with base 10").
Proof.
  intro bad.
  rewrite (get_positions_unreadable_multiplier
             (Mock.session Mock.off_cboe Mock.quotes_ok) false
             (fun _ => MockPositions.held ++ [bad]) MockPositions.int_100 Mock.start
             (mk_State [EvConnect (Normal true)] false) MockPositions.held bad []
             (mk_exn "ValueError" "invalid literal for int() with base 10")).
  - reflexivity.
  - reflexivity.
  - reflexivity.
  - repeat constructor; intro; try discriminate; exists 100; reflexivity.
  - reflexivity.
  - discriminate.
  - reflexivity.
Defined.

(** ** The spot price and the ladder around it *)

(** X4. The spot price [get_atm_options] goes by. Without a ticker, or
    when the quoted price of the first ticker (its market price, or its
    close when the market price is zero) is zero, negative or not a number,
    it is 5000 and one notice is printed; otherwise it is that quoted
    price, positive or plus infinity, taken as it is and without a
    notice. *)
Theorem spot_price_is_quote_or_placeholder :
  forall symbol_name tickers st,
    (unusable_spot tickers ->
     exists msg,
       (msg = NoSpotPlaceholder symbol_name \/ msg = InvalidSpotPlaceholder symbol_name) /\
       spot_price_of symbol_name tickers st
       = (Normal (Fin (5000 # 1)), mk_State (trace st ++ [EvPrint msg]) (oi_fetcher st))) /\
    (forall t0 rest,
       tickers = t0 :: rest ->
       le0 (quoted_price t0) = false -> str_is_nan (quoted_price t0) = false ->
       spot_price_of symbol_name tickers st = (Normal (quoted_price t0), st) /\
       (positive (quoted_price t0) \/ quoted_price t0 = Inf false)).
Proof.
  intros symbol_name tickers st.
  destruct (spot_price_of_cases symbol_name tickers st)
    as [(Hun & msg & Hmsg & Hspot) | (t0 & rest & -> & Hle & Hnan & Hspot)].
  - split; [intros _; exists msg; auto |].
    intros t0 rest -> Hle Hnan. cbn in Hun. destruct Hun; congruence.
  - split.
    + cbn. intros [H | H]; congruence.
    + intros t1 rest1 Heq Hle1 Hnan1. inversion Heq; subst.
      split; [exact Hspot | now apply usable_is_positive].
Qed.

Lemma spot_price_is_quote_or_placeholder_witness :
  (exists msg,
     spot_price_of "SPX" [] Mock.start
     = (Normal (Fin (5000 # 1)), mk_State [EvPrint msg] false)) /\
  spot_price_of "SPX" [Mock.priced (Fin (5003 # 1))] Mock.start
  = (Normal (Fin (5003 # 1)), Mock.start).
Proof.
  split.
  - destruct (proj1 (spot_price_is_quote_or_placeholder "SPX" [] Mock.start) I)
      as (msg & _ & Hrun).
    exists msg. exact Hrun.
  - exact (proj1 (proj2 (spot_price_is_quote_or_placeholder "SPX"
                           [Mock.priced (Fin (5003 # 1))] Mock.start)
                    (Mock.priced (Fin (5003 # 1))) [] eq_refl eq_refl eq_refl)).
Defined.

Lemma strikes_to_check_in atm inc sides x :
  In x (strikes_to_check atm inc sides) ->
  exists i, - sides <= i <= sides /\ x = atm + i * inc.
Proof.
  unfold strikes_to_check, py_range. rewrite map_map. intro Hin.
  apply in_map_iff in Hin. destruct Hin as (k & <- & Hk).
  apply in_seq in Hk. exists (- sides + Z.of_nat k). split; [lia | reflexivity].
Qed.

(** X5. For every symbol and every spot price of magnitude below
    [2**52] the ladder of [get_atm_options] has 41 strikes, from 20
    increments below the ATM strike to 20 above, and the spot price lies
    between its first and its last strike; for SPX, SPXW, RUT and NDX every
    strike of it is a multiple of 5. *)
Theorem ladder_brackets_spot :
  forall symbol_name q,
    (Qabs q < pow2 52)%Q ->
    exists atm_strike,
      atm_strike_of symbol_name (Fin q) = Normal atm_strike /\
      let increment := strike_increment_of symbol_name in
      let ladder := strikes_to_check atm_strike increment 20 in
      length ladder = 41%nat /\
      nth 0 ladder 0 = atm_strike - 20 * increment /\
      nth 40 ladder 0 = atm_strike + 20 * increment /\
      (inject_Z (nth 0%nat ladder 0%Z) <= q <= inject_Z (nth 40%nat ladder 0%Z))%Q /\
      (str_in symbol_name ["SPX"; "SPXW"; "RUT"; "NDX"] = true ->
       Forall (fun strike => (5 | strike)) ladder).
Proof.
  intros symbol_name q Hlt.
  assert (exists k, atm_strike_of symbol_name (Fin q) = Normal k /\
                    (inject_Z k - (3 # 1) <= q <= inject_Z k + (3 # 1))%Q /\
                    (str_in symbol_name ["SPX"; "SPXW"; "RUT"; "NDX"] = true -> (5 | k)))
    as (k & Hatm & Hnear & Hmult).
  { assert ((inject_Z (round_half_even (round64 (q / (5 # 1))) * 5) - (3 # 1) <= q
             <= inject_Z (round_half_even (round64 (q / (5 # 1))) * 5) + (3 # 1))%Q) as Hfive.
    { destruct (quotient_rounds_close q Hlt) as [H1 H2].
      assert (q == (5 # 1) * (q / (5 # 1)))%Q as Hq by field.
      set (r := round_half_even (round64 (q / (5 # 1)))) in *.
      set (x := (q / (5 # 1))%Q) in *.
      rewrite inject_Z_mult. change (inject_Z 5) with (5 # 1)%Q. split; lra. }
    unfold atm_strike_of, div5, py_round.
    destruct (str_in symbol_name ["SPX"; "SPXW"; "NDX"]) eqn:Hidx.
    - eexists. split; [reflexivity |].
      split; [exact Hfive |]. intros _. apply Z.divide_factor_r.
    - destruct (String.eqb_spec symbol_name "SPY") as [-> | Hspy].
      + exists (round_half_even q). split; [reflexivity |]. split; [| discriminate].
        destruct (round_half_even_bounds q) as [H1 H2]. split; lra.
      + eexists. split; [reflexivity |].
        split; [exact Hfive |]. intros _. apply Z.divide_factor_r. }
  exists k. split; [exact Hatm |]. cbv zeta.
  assert (1 <= strike_increment_of symbol_name) as Hinc
    by (unfold strike_increment_of; destruct (str_in symbol_name _); lia).
  rewrite strikes_to_check_length.
  rewrite !strikes_to_check_nth by (cbn; lia).
  split; [reflexivity |]. split; [lia |]. split; [lia |]. split.
  - destruct Hnear as [Hlo Hhi].
    assert (inject_Z (k + (Z.of_nat 0 - 20) * strike_increment_of symbol_name)
            <= inject_Z k - (20 # 1))%Q as Hfirst.
    { change (20 # 1)%Q with (inject_Z 20). unfold Qminus.
      rewrite <- inject_Z_opp, <- inject_Z_plus, <- Zle_Qle. lia. }
    assert (inject_Z k + (20 # 1)
            <= inject_Z (k + (Z.of_nat 40 - 20) * strike_increment_of symbol_name))%Q as Hlast.
    { change (20 # 1)%Q with (inject_Z 20).
      rewrite <- inject_Z_plus, <- Zle_Qle. lia. }
    split; lra.
  - intro Hsym. apply Forall_forall. intros x Hin.
    apply strikes_to_check_in in Hin. destruct Hin as (i & _ & ->).
    apply Z.divide_add_r; [exact (Hmult Hsym) |].
    unfold strike_increment_of. rewrite Hsym. apply Z.divide_factor_r.
Qed.

Lemma ladder_brackets_spot_witness :
  (Qabs (5003 # 1) < pow2 52)%Q /\
  exists atm_strike,
    atm_strike_of "SPX" (Fin (5003 # 1)) = Normal atm_strike /\
    length (strikes_to_check atm_strike 5 20) = 41%nat /\
    (inject_Z (nth 0%nat (strikes_to_check atm_strike 5 20) 0%Z) <= 5003 # 1
     <= inject_Z (nth 40%nat (strikes_to_check atm_strike 5 20) 0%Z))%Q.
Proof.
  assert (Qabs (5003 # 1) < pow2 52)%Q as Hlt by (vm_compute; reflexivity).
  split; [exact Hlt |].
  destruct (ladder_brackets_spot "SPX" (5003 # 1) Hlt)
    as (atm_strike & Hatm & Hlen & _ & _ & Hin & _).
  exists atm_strike. split; [exact Hatm | split; [exact Hlen | exact Hin]].
Defined.

(** ** What the fallback methods submit and return *)

Lemma ensure_connected_down sess enable_oi_streaming st :
  get_ib_connection sess (trace st) <> Normal true ->
  exists e,
    _ensure_connected sess enable_oi_streaming st
    = (Raise e, mk_State (trace st ++ [EvConnect (get_ib_connection sess (trace st))])
                         (oi_fetcher st)).
Proof.
  intro Hdown. unfold _ensure_connected, bind, await, raise.
  destruct (get_ib_connection sess (trace st)) as [[|] | e0]; [congruence | |];
    eexists; reflexivity.
Qed.

Lemma search_log_in ds log r :
  search_log ds log r -> Forall (fun da => In (fst da) ds) log.
Proof.
  induction 1 as [| d ds a c Ha | d ds a log r Ha H IH].
  - constructor.
  - constructor; [left; reflexivity | constructor].
  - constructor; [left; reflexivity |].
    apply Forall_impl with (2 := IH). intros da Hin. right. exact Hin.
Qed.

Lemma accepted_has_conId a c : accepted a = Some c -> Contract.conId c <> 0.
Proof.
  unfold accepted. destruct a as [[| [c0 |] rest] | e]; try discriminate.
  destruct (Contract.conId c0 =? 0) eqn:Hid; [discriminate |].
  intro H. inversion H; subst. now apply Z.eqb_neq.
Qed.

Lemma found_answers_a_candidate sess ds log c :
  search_log ds log (Some c) ->
  Forall (answered_by sess) log ->
  Contract.conId c <> 0 /\
  exists d h, In d ds /\ accepted (qualifyContractsAsync sess h d) = Some c.
Proof.
  intros Hlog Hans.
  pose proof (search_log_in _ _ _ Hlog) as Hin.
  destruct (search_log_found _ _ _ Hlog) as (earlier & d & a & -> & _ & Hacc).
  apply Forall_app in Hans. destruct Hans as [_ Hans].
  apply Forall_app in Hin. destruct Hin as [_ Hin].
  inversion Hans as [| ? ? [h Hh] _]; subst. inversion Hin as [| ? ? Hd _]; subst.
  cbn in Hh, Hd. split; [exact (accepted_has_conId _ _ Hacc) |].
  exists d, h. split; [exact Hd | now rewrite <- Hh].
Qed.

(** X6. A contract returned by [qualify_underlying_with_fallback] or by
    [qualify_option_with_fallback] has a non-zero identifier and is the
    first entry of the answer the session gave to one of the candidates of
    the symbol: neither method makes up a contract or returns one it did
    not ask for. *)
Theorem returned_contract_answers_a_candidate :
  forall sess enable_oi_streaming symbol_name expiry_date strike right trading_class st c st',
    (qualify_underlying_with_fallback sess enable_oi_streaming symbol_name st
       = (Normal (Some c), st') ->
     Contract.conId c <> 0 /\
     exists d h,
       In d (underlying_candidates symbol_name) /\
       accepted (qualifyContractsAsync sess h d) = Some c) /\
    (qualify_option_with_fallback sess enable_oi_streaming symbol_name expiry_date strike
       right trading_class st = (Normal (Some c), st') ->
     Contract.conId c <> 0 /\
     exists d h,
       In d (option_candidates symbol_name expiry_date strike right trading_class) /\
       accepted (qualifyContractsAsync sess h d) = Some c).
Proof.
  intros sess enable symbol_name expiry strike right tc st c st'.
  assert (get_ib_connection sess (trace st) = Normal true \/
          get_ib_connection sess (trace st) <> Normal true) as [Hlive | Hdown].
  { destruct (get_ib_connection sess (trace st)) as [[|] | e]; auto; right; discriminate. }
  - split; intro Hrun.
    + destruct (qualify_underlying_run sess enable symbol_name st Hlive)
        as (r & st1 & evs & Hrun1 & _ & Hlog & Hans).
      rewrite Hrun in Hrun1. inversion Hrun1; subst.
      now apply found_answers_a_candidate with (log := attempts evs).
    + destruct (qualify_option_run sess enable symbol_name expiry strike right tc st Hlive)
        as (r & st1 & evs & Hrun1 & _ & Hlog & Hans).
      rewrite Hrun in Hrun1. inversion Hrun1; subst.
      now apply found_answers_a_candidate with (log := attempts evs).
  - destruct (ensure_connected_down sess enable st Hdown) as [e He].
    split; intro Hrun.
    + unfold qualify_underlying_with_fallback, bind at 1 in Hrun. rewrite He in Hrun.
      discriminate.
    + unfold qualify_option_with_fallback, bind at 1 in Hrun. rewrite He in Hrun.
      discriminate.
Qed.

Lemma returned_contract_answers_a_candidate_witness :
  exists d h,
    In d (underlying_candidates "SPX") /\
    accepted (qualifyContractsAsync (Mock.session Mock.off_cboe Mock.quotes_ok) h d)
    = Some (Mock.resolved (Index "SPX" "SMART" "USD")).
Proof.
  destruct (returned_contract_answers_a_candidate
              (Mock.session Mock.off_cboe Mock.quotes_ok) false "SPX" "20250117" 5000 "C" None
              Mock.start (Mock.resolved (Index "SPX" "SMART" "USD"))
              (snd (qualify_underlying_with_fallback
                      (Mock.session Mock.off_cboe Mock.quotes_ok) false "SPX" Mock.start)))
    as [Hunderlying _].
  destruct Hunderlying as [_ Hfrom]; [vm_compute; reflexivity | exact Hfrom].
Defined.

Lemma in_combinations variants exchanges v x :
  In (v, x) (combinations variants exchanges) <-> In v variants /\ In x (exchanges v).
Proof.
  unfold combinations. rewrite in_flat_map. split.
  - intros (v' & Hv & Hin). apply in_map_iff in Hin. destruct Hin as (x' & Heq & Hx).
    inversion Heq; subst. auto.
  - intros [Hv Hx]. exists v. split; [exact Hv |]. apply in_map_iff. eauto.
Qed.

(** X7. Every request [qualify_option_with_fallback] submits is an option
    contract without identifier, in USD, for the expiry, strike and right
    it was called with, on a variant of the symbol and one of that
    variant's exchanges; its trading class is the hint when a non-empty one
    was given, also for the weekly variant, and otherwise SPXW for the
    variant SPXW and empty for the others. *)
Theorem option_requests_carry_the_asked_terms :
  forall sess enable_oi_streaming symbol_name expiry_date strike right trading_class st,
    exists evs,
      trace (snd (qualify_option_with_fallback sess enable_oi_streaming symbol_name
                    expiry_date strike right trading_class st)) = trace st ++ evs /\
      Forall (fun da =>
                let d := fst da in
                Contract.secType d = "OPT" /\
                Contract.conId d = 0 /\
                Contract.lastTradeDateOrContractMonth d = expiry_date /\
                Contract.strike d = strike /\
                Contract.right d = right /\
                Contract.currency d = "USD" /\
                In (Contract.symbol d) (Opt.symbol_variations symbol_name) /\
                In (Contract.exchange d) (Opt.exchanges (Contract.symbol d)) /\
                Contract.tradingClass d
                = match Opt.hint_given trading_class with
                  | Some hint => hint
                  | None => if String.eqb (Contract.symbol d) "SPXW"
                            then "SPXW" else EmptyString
                  end)
             (attempts evs).
Proof.
  intros sess enable symbol_name expiry strike right tc st.
  assert (get_ib_connection sess (trace st) = Normal true \/
          get_ib_connection sess (trace st) <> Normal true) as [Hlive | Hdown].
  { destruct (get_ib_connection sess (trace st)) as [[|] | e]; auto; right; discriminate. }
  - destruct (qualify_option_run sess enable symbol_name expiry strike right tc st Hlive)
      as (r & st1 & evs & Hrun & Htr & Hlog & _).
    exists evs. rewrite Hrun. split; [exact Htr |].
    apply Forall_impl with (2 := search_log_in _ _ _ Hlog).
    intros [d a] Hin. cbn [fst] in *. unfold option_candidates in Hin.
    apply in_map_iff in Hin. destruct Hin as ([v x] & <- & Hvx).
    apply in_combinations in Hvx. destruct Hvx as [Hv Hx]. cbn [fst snd].
    unfold Opt.descriptor.
    destruct (Opt.hint_given tc) as [hint |]; [cbn; repeat split; auto |].
    destruct (String.eqb v "SPXW") eqn:Hw; cbn; rewrite ?Hw; repeat split; auto.
  - destruct (ensure_connected_down sess enable st Hdown) as [e He].
    unfold qualify_option_with_fallback, bind at 1. rewrite He.
    eexists [_]. split; [reflexivity | constructor].
Qed.

Lemma dict_get_missing {V : Type} (d : list (string * V)) k default :
  ~ In k (map fst d) -> dict_get d k default = default.
Proof.
  induction d as [| [k' v] d IH]; intro Hout; cbn.
  - reflexivity.
  - destruct (String.eqb_spec k' k) as [-> | Hne].
    + exfalso. apply Hout. left. reflexivity.
    + apply IH. intro Hin. apply Hout. right. exact Hin.
Qed.

Lemma search_log_single d log r :
  search_log [d] log r -> exists a, log = [(d, a)] /\ r = accepted a.
Proof.
  intro H. inversion H as [| ? ? a c Ha | ? ? a log' r' Ha Hrest]; subst.
  - exists a. auto.
  - inversion Hrest; subst. exists a. auto.
Qed.

(** X8. A symbol the tables do not list is tried once, under its own name
    on SMART: as a stock by [qualify_underlying_with_fallback], as an
    option by [qualify_option_with_fallback] (which does not list VIX
    either); the method returns what that one answer lets through. *)
Theorem unlisted_symbol_is_tried_once_on_smart :
  forall sess enable_oi_streaming symbol_name expiry_date strike right trading_class st,
    get_ib_connection sess (trace st) = Normal true ->
    (~ In symbol_name ["SPX"; "SPXW"; "RUT"; "SPY"; "QQQ"; "IWM"; "VIX"; "NDX"] ->
     exists a st' evs,
       qualify_underlying_with_fallback sess enable_oi_streaming symbol_name st
         = (Normal (accepted a), st') /\
       trace st' = trace st ++ evs /\
       attempts evs = [(Stock symbol_name "SMART" "USD", a)]) /\
    (~ In symbol_name ["SPX"; "SPXW"; "RUT"; "SPY"; "QQQ"; "IWM"; "NDX"] ->
     exists a st' evs,
       qualify_option_with_fallback sess enable_oi_streaming symbol_name expiry_date strike
         right trading_class st = (Normal (accepted a), st') /\
       trace st' = trace st ++ evs /\
       attempts evs
       = [(Opt.descriptor expiry_date strike right trading_class symbol_name "SMART", a)]).
Proof.
  intros sess enable symbol_name expiry strike right tc st Hlive. split; intro Hout.
  - assert (underlying_candidates symbol_name = [Stock symbol_name "SMART" "USD"]) as Hcand.
    { unfold underlying_candidates, Underlying.symbol_variations, Underlying.exchanges.
      rewrite dict_get_missing by (cbn; intro Hin; apply Hout; cbn; intuition auto). cbn [combinations flat_map].
      rewrite dict_get_missing by (cbn; intro Hin; apply Hout; cbn; intuition auto). cbn.
      unfold Underlying.descriptor, str_in. cbn.
      repeat match goal with
             | |- context [String.eqb symbol_name ?k] =>
                 destruct (String.eqb_spec symbol_name k) as [-> |];
                 [exfalso; apply Hout; cbn; intuition | cbn]
             end.
      reflexivity. }
    destruct (qualify_underlying_run sess enable symbol_name st Hlive)
      as (r & st' & evs & Hrun & Htr & Hlog & _).
    rewrite Hcand in Hlog. apply search_log_single in Hlog. destruct Hlog as (a & Hatt & ->).
    exists a, st', evs. auto.
  - assert (option_candidates symbol_name expiry strike right tc
            = [Opt.descriptor expiry strike right tc symbol_name "SMART"]) as Hcand.
    { unfold option_candidates, Opt.symbol_variations, Opt.exchanges.
      rewrite dict_get_missing by (cbn; intro Hin; apply Hout; cbn; intuition auto). cbn [combinations flat_map].
      rewrite dict_get_missing by (cbn; intro Hin; apply Hout; cbn; intuition auto). reflexivity. }
    destruct (qualify_option_run sess enable symbol_name expiry strike right tc st Hlive)
      as (r & st' & evs & Hrun & Htr & Hlog & _).
    rewrite Hcand in Hlog. apply search_log_single in Hlog. destruct Hlog as (a & Hatt & ->).
    exists a, st', evs. auto.
Qed.

Lemma unlisted_symbol_is_tried_once_on_smart_witness :
  exists a st' evs,
    qualify_option_with_fallback (Mock.session Mock.no_vix Mock.quotes_ok) false "VIX"
      "20250117" 18 "C" None Mock.start = (Normal (accepted a), st') /\
    trace st' = trace Mock.start ++ evs /\
    attempts evs = [(Opt.descriptor "20250117" 18 "C" None "VIX" "SMART", a)].
Proof.
  destruct (unlisted_symbol_is_tried_once_on_smart
              (Mock.session Mock.no_vix Mock.quotes_ok) false "VIX" "20250117" 18 "C" None
              Mock.start eq_refl) as [_ Hoption].
  apply Hoption. cbn. intuition discriminate.
Defined.

(** ** The option contracts of one symbol *)

Lemma qualify_option_returns_identified sess enable_oi_streaming symbol_name expiry_date
    strike right trading_class st c st' :
  qualify_option_with_fallback sess enable_oi_streaming symbol_name expiry_date strike right
    trading_class st = (Normal (Some c), st') ->
  Contract.conId c <> 0.
Proof.
  intro Hrun.
  assert (get_ib_connection sess (trace st) = Normal true \/
          get_ib_connection sess (trace st) <> Normal true) as [Hlive | Hdown].
  { destruct (get_ib_connection sess (trace st)) as [[|] | e]; auto; right; discriminate. }
  - destruct (qualify_option_run sess enable_oi_streaming symbol_name expiry_date strike right
                trading_class st Hlive) as (r & st1 & evs & Hrun1 & _ & Hlog & Hans).
    rewrite Hrun in Hrun1. inversion Hrun1; subst.
    now destruct (found_answers_a_candidate sess _ _ _ Hlog Hans).
  - destruct (ensure_connected_down sess enable_oi_streaming st Hdown) as [e He].
    unfold qualify_option_with_fallback, bind at 1 in Hrun. rewrite He in Hrun. discriminate.
Qed.

Lemma qualify_rights_appends sess enable_oi_streaming symbol_name expiry_date strike
    trading_class rights acc st qs st' :
  qualify_rights sess enable_oi_streaming symbol_name expiry_date strike trading_class rights
    acc st = (Normal qs, st') ->
  exists new,
    qs = acc ++ new /\
    (length new <= length rights)%nat /\
    Forall (fun c => Contract.conId c <> 0) new.
Proof.
  revert acc st. induction rights as [| r rest IH]; intros acc st Hrun; cbn [qualify_rights] in *.
  - inversion Hrun; subst. exists []. rewrite app_nil_r. auto.
  - apply bind_normal in Hrun. destruct Hrun as (qualified_opt & st1 & Hopt & Hrest).
    destruct (IH _ _ Hrest) as (new & -> & Hlen & Hids).
    destruct qualified_opt as [c |].
    + exists (c :: new). rewrite <- app_assoc. cbn [app]. repeat split; [cbn in *; lia |].
      constructor; [| exact Hids].
      exact (qualify_option_returns_identified _ _ _ _ _ _ _ _ _ _ Hopt).
    + exists new. repeat split; [cbn in *; lia | exact Hids].
Qed.

(** X9. The loop that qualifies the ladder (every strike, call before put)
    only appends to the contracts it starts from, at most two contracts per
    strike, and every contract it appends has a non-zero identifier; so the
    quote request for one symbol never carries more than 82 contracts nor
    an unqualified one. *)
Theorem qualify_strikes_appends_identified_contracts :
  forall sess enable_oi_streaming symbol_name expiry_date trading_class strikes acc st qs st',
    qualify_strikes sess enable_oi_streaming symbol_name expiry_date trading_class strikes
      acc st = (Normal qs, st') ->
    exists new,
      qs = acc ++ new /\
      (length new <= 2 * length strikes)%nat /\
      Forall (fun c => Contract.conId c <> 0) new.
Proof.
  intros sess enable symbol_name expiry tc strikes.
  induction strikes as [| k rest IH]; intros acc st qs st' Hrun; cbn [qualify_strikes] in *.
  - inversion Hrun; subst. exists []. rewrite app_nil_r. auto.
  - apply bind_normal in Hrun. destruct Hrun as (qs1 & st1 & Hrights & Hrest).
    apply qualify_rights_appends in Hrights. destruct Hrights as (new1 & -> & Hlen1 & Hids1).
    destruct (IH _ _ _ _ Hrest) as (new2 & -> & Hlen2 & Hids2).
    exists (new1 ++ new2). rewrite app_assoc. repeat split.
    + rewrite length_app. cbn in *. lia.
    + apply Forall_app. auto.
Qed.

Lemma qualify_strikes_appends_identified_contracts_witness :
  let run := qualify_strikes (Mock.session Mock.weekly_at_5000 Mock.quotes_ok) false "SPX"
               "20250117" None [4995; 5000] [] Mock.start in
  exists new,
    match fst run with
    | Normal qs => qs
    | Raise _ => []
    end = [] ++ new /\
    (length new <= 2 * 2)%nat.
Proof.
  intro run.
  destruct (qualify_strikes_appends_identified_contracts
              (Mock.session Mock.weekly_at_5000 Mock.quotes_ok) false "SPX" "20250117" None
              [4995; 5000] [] Mock.start
              (match fst run with
               | Normal qs => qs
               | Raise _ => []
               end) (snd run)) as (new & Hqs & Hlen & _).
  - vm_compute. reflexivity.
  - exists new. split; [exact Hqs | exact Hlen].
Defined.


Section NoOptionListed.

Variable sess : Session.
Variable enable_oi_streaming : bool.

Hypothesis always_live : forall h, get_ib_connection sess h = Normal true.
Hypothesis options_rejected :
  forall h d, Contract.secType d = "OPT" -> accepted (qualifyContractsAsync sess h d) = None.




End NoOptionListed.




(** ** Enrichment that succeeds *)



(** ** The result with streaming off *)

Lemma fetch_symbol_options_built sess enable_oi_streaming expiry_date symbol_name st
    data contracts st' :
  fetch_symbol_options sess enable_oi_streaming expiry_date symbol_name st
    = (Normal (Some (data, contracts)), st') ->
  Forall (built_for symbol_name) data.
Proof.
  unfold fetch_symbol_options. intro H.
  apply bind_normal in H. destruct H as ([underlying_contract |] & st1 & _ & H).
  2: { apply bind_normal in H. destruct H as (? & ? & _ & H). discriminate. }
  apply bind_normal in H. destruct H as (tickers & st2 & _ & H).
  apply bind_normal in H. destruct H as (? & st3 & _ & H).
  apply bind_normal in H. destruct H as (spot_price & st4 & Hspot & H).
  apply bind_normal in H. destruct H as (atm_strike & st5 & Hatm & H).
  apply bind_normal in H. destruct H as ([| c cs] & st6 & _ & H).
  { apply bind_normal in H. destruct H as (? & ? & _ & H). discriminate. }
  apply bind_normal in H. destruct H as (tickers_for_options & st7 & _ & H).
  inversion H; subst.
  assert (positive spot_price) as Hpos.
  { destruct (spot_price_of_cases symbol_name tickers st3)
      as [(_ & msg & _ & Hspot') | (t0 & rest & _ & Hle & Hnan & Hspot')];
      rewrite Hspot in Hspot'; inversion Hspot'; subst; [reflexivity |].
    destruct (usable_is_positive _ Hle Hnan) as [Hpos | Hinf]; [exact Hpos |].
    rewrite Hinf in Hatm. unfold lift_outcome in Hatm.
    rewrite atm_strike_of_infinite in Hatm. discriminate. }
  apply Forall_map, Forall_forall. intros t _. exists spot_price, t.
  split; [reflexivity | exact Hpos].
Qed.

Lemma symbol_records_off sess expiry_date symbol_name st recs st' :
  symbol_records sess false expiry_date symbol_name st = (Normal recs, st') ->
  Forall (built_for symbol_name) recs.
Proof.
  unfold symbol_records. intro H.
  apply bind_normal in H. destruct H as ([[data contracts] |] & st1 & Hfetch & H).
  - apply fetch_symbol_options_built in Hfetch.
    unfold enhance_with_oi, bind, get_oi_fetcher in H. rewrite andb_false_r in H.
    cbn in H. inversion H; subst. exact Hfetch.
  - inversion H; subst. constructor.
Qed.

Lemma for_symbols_off sess expiry_date symbols acc st recs st' :
  for_symbols sess false expiry_date symbols acc st = (Normal recs, st') ->
  exists new, recs = acc ++ new /\ grouped symbols new.
Proof.
  revert acc st. induction symbols as [| s rest IH]; intros acc st H; cbn [for_symbols] in H.
  - inversion H; subst. exists []. rewrite app_nil_r. split; [reflexivity | constructor].
  - apply bind_normal in H. destruct H as (recs_s & st1 & Hs & H).
    apply symbol_records_off in Hs.
    destruct (IH _ _ H) as (new & -> & Hnew).
    exists (recs_s ++ new). rewrite app_assoc. split; [reflexivity |].
    now constructor.
Qed.

Lemma get_atm_options_off sess symbols days_to_expiry st recs st' :
  get_atm_options sess false symbols days_to_expiry st = (Normal recs, st') ->
  grouped symbols recs.
Proof.
  unfold get_atm_options. intro H.
  apply bind_normal in H. destruct H as ([] & st1 & _ & H).
  destruct symbols as [| s rest].
  - inversion H; subst. constructor.
  - apply bind_normal in H. destruct H as (expiry_date & st2 & _ & H).
    apply for_symbols_off in H. destruct H as (new & -> & Hnew). exact Hnew.
Qed.

Lemma grouped_symbols symbols recs :
  grouped symbols recs ->
  exists counts,
    length counts = length symbols /\
    map OptionData.symbol recs
    = flat_map (fun sn => repeat (fst sn) (snd sn)) (combine symbols counts).
Proof.
  induction 1 as [| s rest recs_s recs_rest Hs Hrest (counts & Hlen & Hmap)].
  - exists []. auto.
  - exists (length recs_s :: counts). split; [cbn; congruence |].
    rewrite map_app, Hmap. cbn [combine flat_map fst snd]. f_equal.
    clear -Hs. induction Hs as [| r rs (spot & t & -> & _) _ IH]; cbn; [reflexivity |].
    now rewrite IH.
Qed.

Lemma numeric_not_nan v : not_nan (if numeric v then v else None).
Proof.
  unfold not_nan, numeric. destruct v as [[q | | negative] |]; cbn; discriminate.
Qed.

Lemma iv_of_not_nan t : not_nan (iv_of t).
Proof.
  unfold iv_of.
  destruct (Ticker.modelGreeks t) as [g |]; [| apply numeric_not_nan].
  destruct (numeric (OptionComputation.impliedVol g)) eqn:Hn; [| apply numeric_not_nan].
  pose proof (numeric_not_nan (OptionComputation.impliedVol g)) as H. now rewrite Hn in H.
Qed.

Lemma greek_of_not_nan field t : not_nan (greek_of field t).
Proof.
  unfold greek_of. destruct (Ticker.modelGreeks t) as [g |]; [apply numeric_not_nan |].
  discriminate.
Qed.

Lemma quote_not_sentinel x : not_sentinel (if ne_minus1 x then Some x else None).
Proof.
  unfold not_sentinel. intros q H. destruct x as [q' | | negative]; cbn in H.
  - destruct (Qeq_bool q' (-1 # 1)) eqn:Hq; cbn in H; [discriminate |].
    inversion H; subst. intro Heq. apply Qeq_bool_iff in Heq. congruence.
  - discriminate.
  - discriminate.
Qed.

Lemma grouped_records symbols recs :
  grouped symbols recs ->
  Forall (fun r => exists s, In s symbols /\ built_for s r) recs.
Proof.
  induction 1 as [| s rest recs_s recs_rest Hs Hrest IH].
  - constructor.
  - apply Forall_app. split.
    + apply Forall_impl with (2 := Hs). intros r Hr. exists s. split; [left; reflexivity | exact Hr].
    + apply Forall_impl with (2 := IH). intros r (s' & Hin & Hr). exists s'. split; auto.
      right. exact Hin.
Qed.

(** X12. With streaming of open interest off, the result of
    [get_atm_options] lists the symbols in the order they were asked for:
    its records form one run per symbol, possibly empty, each carrying that
    symbol, the runs following the order of [symbols]. *)
Theorem result_follows_symbol_order :
  forall sess symbols days_to_expiry st recs st',
    get_atm_options sess false symbols days_to_expiry st = (Normal recs, st') ->
    exists counts,
      length counts = length symbols /\
      map OptionData.symbol recs
      = flat_map (fun sn => repeat (fst sn) (snd sn)) (combine symbols counts).
Proof.
  intros sess symbols d st recs st' Hrun.
  apply grouped_symbols. exact (get_atm_options_off _ _ _ _ _ _ Hrun).
Qed.

Lemma result_follows_symbol_order_witness :
  let run := get_atm_options (Mock.session Mock.no_vix Mock.quotes_ok) false
               ["SPY"; "VIX"; "QQQ"] 0 Mock.start in
  exists counts,
    length counts = 3%nat /\
    map OptionData.symbol (match fst run with
                           | Normal recs => recs
                           | Raise _ => []
                           end)
    = flat_map (fun sn => repeat (fst sn) (snd sn)) (combine ["SPY"; "VIX"; "QQQ"] counts).
Proof.
  intro run.
  apply (result_follows_symbol_order (Mock.session Mock.no_vix Mock.quotes_ok)
           ["SPY"; "VIX"; "QQQ"] 0 Mock.start _ (snd run)).
  vm_compute. reflexivity.
Defined.

(** X13. With streaming of open interest off, every record
    [get_atm_options] returns carries one of the symbols asked for, an
    [open_interest] of 0 and a positive spot price; its implied
    volatility, gamma and delta are a number or absent, never nan; and its
    bid and ask are never the sentinel -1. *)
Theorem records_are_well_formed :
  forall sess symbols days_to_expiry st recs st',
    get_atm_options sess false symbols days_to_expiry st = (Normal recs, st') ->
    Forall (fun r =>
              In (OptionData.symbol r) symbols /\
              OptionData.open_interest r = 0 /\
              positive (OptionData.underlying_price_at_fetch r) /\
              not_nan (OptionData.implied_volatility r) /\
              not_nan (OptionData.gamma r) /\
              not_nan (OptionData.delta r) /\
              not_sentinel (OptionData.bid r) /\
              not_sentinel (OptionData.ask r)) recs.
Proof.
  intros sess symbols d st recs st' Hrun.
  apply Forall_impl with (2 := grouped_records _ _ (get_atm_options_off _ _ _ _ _ _ Hrun)).
  intros r (s & Hin & spot & t & -> & Hspot). cbn.
  split; [exact Hin |]. split; [reflexivity |]. split; [exact Hspot |].
  split; [apply iv_of_not_nan |].
  split; [apply greek_of_not_nan |]. split; [apply greek_of_not_nan |].
  split; apply quote_not_sentinel.
Qed.

Lemma records_are_well_formed_witness :
  let run := get_atm_options (Mock.session Mock.off_cboe Mock.quotes_ok) false ["SPY"] 0
               Mock.start in
  Forall (fun r => not_sentinel (OptionData.ask r) /\ OptionData.open_interest r = 0)
         (match fst run with
          | Normal recs => recs
          | Raise _ => []
          end).
Proof.
  intro run.
  pose (recs := match fst run with
                | Normal recs => recs
                | Raise _ => []
                end).
  assert (get_atm_options (Mock.session Mock.off_cboe Mock.quotes_ok) false ["SPY"] 0
            Mock.start = (Normal recs, snd run)) as Hrun by (vm_compute; reflexivity).
  pose proof (records_are_well_formed (Mock.session Mock.off_cboe Mock.quotes_ok) ["SPY"] 0
                Mock.start recs (snd run) Hrun) as Hall.
  fold recs. revert Hall. apply Forall_impl.
  intros r (_ & Hoi & _ & _ & _ & _ & _ & Hask). auto.
Defined.

(** ** The requests for the underlying, and how many requests a call makes *)

(** X14. Every request [qualify_underlying_with_fallback] submits is a
    contract without identifier, in USD, on a variant of the symbol and one
    of that variant's exchanges: an index when the symbol asked for is SPX,
    RUT, VIX or NDX, and a stock for every other symbol, SPXW included. *)
Theorem underlying_requests_follow_the_symbol_class :
  forall sess enable_oi_streaming symbol_name st,
    exists evs,
      trace (snd (qualify_underlying_with_fallback sess enable_oi_streaming symbol_name st))
      = trace st ++ evs /\
      Forall (fun da =>
                let d := fst da in
                Contract.secType d
                = (if str_in symbol_name ["SPX"; "RUT"; "VIX"; "NDX"] then "IND" else "STK") /\
                Contract.conId d = 0 /\
                Contract.currency d = "USD" /\
                In (Contract.symbol d) (Underlying.symbol_variations symbol_name) /\
                In (Contract.exchange d) (Underlying.exchanges (Contract.symbol d)))
             (attempts evs).
Proof.
  intros sess enable symbol_name st.
  assert (get_ib_connection sess (trace st) = Normal true \/
          get_ib_connection sess (trace st) <> Normal true) as [Hlive | Hdown].
  { destruct (get_ib_connection sess (trace st)) as [[|] | e]; auto; right; discriminate. }
  - destruct (qualify_underlying_run sess enable symbol_name st Hlive)
      as (r & st1 & evs & Hrun & Htr & Hlog & _).
    exists evs. rewrite Hrun. split; [exact Htr |].
    apply Forall_impl with (2 := search_log_in _ _ _ Hlog).
    intros [d a] Hin. cbn [fst] in *. unfold underlying_candidates in Hin.
    apply in_map_iff in Hin. destruct Hin as ([v x] & <- & Hvx).
    apply in_combinations in Hvx. destruct Hvx as [Hv Hx]. cbn [fst snd].
    unfold Underlying.descriptor.
    destruct (str_in symbol_name ["SPX"; "RUT"; "VIX"; "NDX"]); cbn; repeat split; auto.
  - destruct (ensure_connected_down sess enable st Hdown) as [e He].
    unfold qualify_underlying_with_fallback, bind at 1. rewrite He.
    eexists [_]. split; [reflexivity | constructor].
Qed.

Lemma underlying_candidates_at_most_4 symbol_name :
  (1 <= length (underlying_candidates symbol_name) <= 4)%nat.
Proof.
  unfold underlying_candidates, Underlying.symbol_variations. rewrite length_map.
  cbn [dict_get].
  repeat match goal with
         | |- context [String.eqb ?k symbol_name] =>
             destruct (String.eqb_spec k symbol_name) as [<- |]; [cbn; lia |]
         end.
  cbn [combinations flat_map]. rewrite app_nil_r, length_map.
  unfold Underlying.exchanges, Underlying.exchange_map. cbn [dict_get].
  repeat match goal with
         | |- context [String.eqb ?k symbol_name] =>
             destruct (String.eqb_spec k symbol_name) as [<- |]; [cbn; lia |]
         end.
  cbn. lia.
Qed.

Lemma option_candidates_at_most_6 symbol_name expiry_date strike right trading_class :
  (1 <= length (option_candidates symbol_name expiry_date strike right trading_class) <= 6)%nat.
Proof.
  unfold option_candidates, Opt.symbol_variations. rewrite length_map.
  cbn [dict_get].
  repeat match goal with
         | |- context [String.eqb ?k symbol_name] =>
             destruct (String.eqb_spec k symbol_name) as [<- |]; [cbn; lia |]
         end.
  cbn [combinations flat_map]. rewrite app_nil_r, length_map.
  unfold Opt.exchanges, Opt.exchange_map. cbn [dict_get].
  repeat match goal with
         | |- context [String.eqb ?k symbol_name] =>
             destruct (String.eqb_spec k symbol_name) as [<- |]; [cbn; lia |]
         end.
  cbn. lia.
Qed.

Lemma search_log_length ds log r :
  search_log ds log r -> (length log <= length ds)%nat.
Proof. induction 1; cbn; lia. Qed.

Lemma search_log_starts ds log r :
  ds <> [] -> search_log ds log r -> (1 <= length log)%nat.
Proof. intros Hne H. destruct H; cbn; [congruence | lia | lia]. Qed.

(** X15. Whatever the symbol and whatever the session answers, one call of
    [qualify_underlying_with_fallback] submits at most 4 qualification
    requests and one call of [qualify_option_with_fallback] at most 6; with
    a live connection each submits at least one. *)
Theorem attempts_per_call_are_bounded :
  forall sess enable_oi_streaming symbol_name expiry_date strike right trading_class st,
    exists evs_underlying evs_option,
      trace (snd (qualify_underlying_with_fallback sess enable_oi_streaming symbol_name st))
      = trace st ++ evs_underlying /\
      trace (snd (qualify_option_with_fallback sess enable_oi_streaming symbol_name
                    expiry_date strike right trading_class st))
      = trace st ++ evs_option /\
      (length (attempts evs_underlying) <= 4)%nat /\
      (length (attempts evs_option) <= 6)%nat /\
      (get_ib_connection sess (trace st) = Normal true ->
       (1 <= length (attempts evs_underlying))%nat /\
       (1 <= length (attempts evs_option))%nat).
Proof.
  intros sess enable symbol_name expiry strike right tc st.
  pose proof (underlying_candidates_at_most_4 symbol_name) as Hu.
  pose proof (option_candidates_at_most_6 symbol_name expiry strike right tc) as Ho.
  assert (get_ib_connection sess (trace st) = Normal true \/
          get_ib_connection sess (trace st) <> Normal true) as [Hlive | Hdown].
  { destruct (get_ib_connection sess (trace st)) as [[|] | e]; auto; right; discriminate. }
  - destruct (qualify_underlying_run sess enable symbol_name st Hlive)
      as (ru & stu & evu & Hrunu & Htru & Hlogu & _).
    destruct (qualify_option_run sess enable symbol_name expiry strike right tc st Hlive)
      as (ro & sto & evo & Hruno & Htro & Hlogo & _).
    exists evu, evo. rewrite Hrunu, Hruno.
    pose proof (search_log_length _ _ _ Hlogu). pose proof (search_log_length _ _ _ Hlogo).
    split; [exact Htru |]. split; [exact Htro |]. split; [lia |]. split; [lia |].
    intros _. split.
    + apply search_log_starts with (2 := Hlogu). intro Hnil. rewrite Hnil in Hu. cbn in Hu. lia.
    + apply search_log_starts with (2 := Hlogo). intro Hnil. rewrite Hnil in Ho. cbn in Ho. lia.
  - destruct (ensure_connected_down sess enable st Hdown) as [e He].
    unfold qualify_underlying_with_fallback, qualify_option_with_fallback.
    unfold bind at 1. rewrite He. unfold bind at 1. rewrite He.
    eexists [_], [_]. split; [reflexivity |]. split; [reflexivity |].
    split; [cbn; lia |]. split; [cbn; lia |]. intro Hlive. contradiction.
Qed.

(** ** With streaming off the fetcher is left alone *)

Lemma quiet_ret {A : Type} (a : A) : quiet (ret a).
Proof.
  intros st r st' H. inversion H; subst. split; [reflexivity |].
  exists []. rewrite app_nil_r. auto.
Qed.

Lemma quiet_lift {A : Type} (o : Outcome A) : quiet (lift_outcome o).
Proof.
  intros st r st' H. inversion H; subst. split; [reflexivity |].
  exists []. rewrite app_nil_r. auto.
Qed.

Lemma quiet_entry (q0 : option Contract.t) : quiet (attr_of_entry q0).
Proof.
  intros st r st' H. destruct q0; inversion H; subst; (split; [reflexivity |]);
    exists []; rewrite app_nil_r; auto.
Qed.

Lemma quiet_emit ev : not_enhance ev -> quiet (emit ev).
Proof.
  intros Hev st r st' H. inversion H; subst. split; [reflexivity |]. exists [ev]. auto.
Qed.

Lemma quiet_await {A : Type} (answer : list Event -> Outcome A) (ev : Outcome A -> Event) :
  (forall r, not_enhance (ev r)) -> quiet (await answer ev).
Proof.
  intros Hev st r st' H. inversion H; subst. split; [reflexivity |]. eexists [_].
  split; [reflexivity |]. constructor; [apply Hev | constructor].
Qed.

Lemma quiet_bind {A B : Type} (m : M A) (k : A -> M B) :
  quiet m -> (forall a, quiet (k a)) -> quiet (bind m k).
Proof.
  intros Hm Hk st r st' H. unfold bind in H.
  destruct (m st) as [[a | e] st1] eqn:Hm1.
  - destruct (Hm st _ _ Hm1) as (Hf1 & evs1 & Htr1 & HP1).
    destruct (Hk a st1 r st' H) as (Hf2 & evs2 & Htr2 & HP2).
    split; [congruence |]. exists (evs1 ++ evs2). split.
    + rewrite Htr2, Htr1. now rewrite app_assoc.
    + apply Forall_app. auto.
  - inversion H; subst. exact (Hm st _ _ Hm1).
Qed.

Lemma quiet_try_except {A : Type} (body : M A) (handler : exn -> M A) :
  quiet body -> (forall e, quiet (handler e)) -> quiet (try_except body handler).
Proof.
  intros Hb Hh st r st' H. unfold try_except in H.
  destruct (body st) as [[a | e] st1] eqn:Hb1.
  - inversion H; subst. exact (Hb st _ _ Hb1).
  - destruct (Hb st _ _ Hb1) as (Hf1 & evs1 & Htr1 & HP1).
    destruct (Hh e st1 r st' H) as (Hf2 & evs2 & Htr2 & HP2).
    split; [congruence |]. exists (evs1 ++ evs2). split.
    + rewrite Htr2, Htr1. now rewrite app_assoc.
    + apply Forall_app. auto.
Qed.

Lemma quiet_first_success {A B : Type} (body : A -> M (option B)) (items : list A) :
  (forall x, quiet (body x)) -> quiet (first_success body items).
Proof.
  intro Hbody. induction items as [| x items IH]; cbn [first_success].
  - apply quiet_ret.
  - apply quiet_bind; [apply Hbody |]. intros [v |]; [apply quiet_ret | exact IH].
Qed.

Ltac quiet :=
  repeat first
    [ apply quiet_ret | apply quiet_lift | apply quiet_entry
    | apply quiet_emit; exact I
    | apply quiet_await; intro; exact I
    | apply quiet_bind | apply quiet_try_except | apply quiet_first_success
    | match goal with
      | |- forall _, _ => intro
      | |- quiet (match ?x with _ => _ end) => destruct x
      | |- quiet (if ?b then _ else _) => destruct b
      end ].

Section StreamingOff.

Variable sess : Session.

Lemma ensure_connected_quiet : quiet (_ensure_connected sess false).
Proof.
  intros st r st' H. unfold _ensure_connected, bind, await, get_oi_fetcher, raise, ret in H.
  assert (Forall not_enhance [EvConnect (get_ib_connection sess (trace st))]) as Hev
    by (repeat constructor).
  destruct (get_ib_connection sess (trace st)) as [[|] | e]; cbn in H; inversion H; subst;
    cbn; eauto.
Qed.

Lemma qualify_underlying_quiet symbol_name :
  quiet (qualify_underlying_with_fallback sess false symbol_name).
Proof.
  unfold qualify_underlying_with_fallback, attempt_underlying.
  apply quiet_bind; [apply ensure_connected_quiet |]. quiet.
Qed.

Lemma qualify_option_quiet symbol_name expiry_date strike right trading_class :
  quiet (qualify_option_with_fallback sess false symbol_name expiry_date strike right
           trading_class).
Proof.
  unfold qualify_option_with_fallback, attempt_option.
  apply quiet_bind; [apply ensure_connected_quiet |]. quiet.
Qed.

Lemma qualify_rights_quiet symbol_name expiry_date strike trading_class rights acc :
  quiet (qualify_rights sess false symbol_name expiry_date strike trading_class rights acc).
Proof.
  revert acc. induction rights as [| r rest IH]; intro acc; cbn [qualify_rights].
  - apply quiet_ret.
  - apply quiet_bind; [apply qualify_option_quiet | intro; apply IH].
Qed.

Lemma qualify_strikes_quiet symbol_name expiry_date trading_class strikes acc :
  quiet (qualify_strikes sess false symbol_name expiry_date trading_class strikes acc).
Proof.
  revert acc. induction strikes as [| k rest IH]; intro acc; cbn [qualify_strikes].
  - apply quiet_ret.
  - apply quiet_bind; [apply qualify_rights_quiet | intro; apply IH].
Qed.

Lemma spot_price_of_quiet symbol_name tickers : quiet (spot_price_of symbol_name tickers).
Proof. unfold spot_price_of, print. quiet. Qed.

Lemma symbol_records_quiet expiry_date symbol_name :
  quiet (symbol_records sess false expiry_date symbol_name).
Proof.
  unfold symbol_records, fetch_symbol_options, enhance_with_oi, get_oi_fetcher, log, print.
  apply quiet_bind.
  - apply quiet_bind; [apply qualify_underlying_quiet |].
    intros [underlying_contract |]; [| quiet].
    apply quiet_bind; [quiet | intro].
    apply quiet_bind; [quiet | intro].
    apply quiet_bind; [apply spot_price_of_quiet | intro].
    apply quiet_bind; [quiet | intro].
    apply quiet_bind; [apply qualify_strikes_quiet |]. quiet.
  - intros [[symbol_options_data symbol_contracts] |]; [| quiet].
    apply quiet_bind.
    + intros st r st' H. inversion H; subst. split; [reflexivity |].
      exists []. rewrite app_nil_r. auto.
    + intro fetcher. rewrite andb_false_r. cbn. quiet.
Qed.

Lemma for_symbols_quiet expiry_date symbols acc :
  quiet (for_symbols sess false expiry_date symbols acc).
Proof.
  revert acc. induction symbols as [| s rest IH]; intro acc; cbn [for_symbols].
  - apply quiet_ret.
  - apply quiet_bind; [apply symbol_records_quiet | intro; apply IH].
Qed.

End StreamingOff.

(** X16. With streaming of open interest off, [get_atm_options] leaves the
    fetcher of the client as it found it and never calls
    [enhance_options_with_oi], however the call ends. *)
Theorem streaming_off_leaves_the_fetcher_alone :
  forall sess symbols days_to_expiry st,
    let st' := snd (get_atm_options sess false symbols days_to_expiry st) in
    oi_fetcher st' = oi_fetcher st /\
    exists evs,
      trace st' = trace st ++ evs /\
      Forall (fun ev => match ev with
                        | EvEnhance _ _ _ => False
                        | _ => True
                        end) evs.
Proof.
  intros sess symbols d st st'. subst st'.
  assert (quiet (get_atm_options sess false symbols d)) as Hquiet.
  { unfold get_atm_options.
    apply quiet_bind; [apply ensure_connected_quiet | intros _].
    destruct symbols as [| s rest]; [apply quiet_ret |].
    apply quiet_bind.
    - intros st0 r st1 H. inversion H; subst. split; [reflexivity |]. eexists [_].
      split; [reflexivity | repeat constructor].
    - intro expiry_date. apply for_symbols_quiet. }
  destruct (get_atm_options sess false symbols d st) as [r st'] eqn:Hrun.
  exact (Hquiet st r st' Hrun).
Qed.

(** ** A spot price of plus infinity *)

(** X17. When the underlying of a symbol qualifies and the quoted price of
    its spot quote is plus infinity, the price passes the check for a
    usable spot, [round] raises [OverflowError] right after the pause, and
    the error leaves the loop body: no option contract is asked for. *)
Theorem infinite_spot_raises :
  forall sess enable_oi_streaming expiry_date symbol_name st underlying_contract st1 t0 rest,
    qualify_underlying_with_fallback sess enable_oi_streaming symbol_name st
      = (Normal (Some underlying_contract), st1) ->
    reqTickersAsync sess (trace st1) [underlying_contract] = Normal (t0 :: rest) ->
    quoted_price t0 = Inf false ->
    symbol_records sess enable_oi_streaming expiry_date symbol_name st
    = (Raise overflow_error,
       mk_State ((trace st1 ++ [EvReqTickers [underlying_contract] (Normal (t0 :: rest))])
                 ++ [EvSleep]) (oi_fetcher st1)).
Proof.
  intros sess enable expiry symbol_name st uc st1 t0 rest Hq Hquote Hinf.
  unfold symbol_records, bind at 1.
  rewrite (fetch_symbol_options_qualified _ _ _ _ _ _ _ Hq).
  pose proof (spot_and_strike_run sess symbol_name [uc]
                (options_around sess enable expiry symbol_name uc) st1) as Hcases.
  rewrite Hquote in Hcases. cbv zeta in Hcases.
  destruct Hcases as [(Hun & _) | [(t1 & rest1 & q & atm & Heq & Hprice & _)
                                  | (t1 & rest1 & Heq & _ & ->)]].
  - cbn in Hun. rewrite Hinf in Hun. cbn in Hun. destruct Hun; discriminate.
  - inversion Heq; subst. congruence.
  - reflexivity.
Qed.

Lemma infinite_spot_raises_witness :
  let sess := Mock.session Mock.off_cboe
                (fun cs => Normal (map (fun _ => Mock.priced (Inf false)) cs)) in
  fst (symbol_records sess false "20250117" "SPX" Mock.start) = Raise overflow_error.
Proof.
  intro sess.
  rewrite (infinite_spot_raises sess false "20250117" "SPX" Mock.start
             (Mock.resolved (Index "SPX" "SMART" "USD"))
             (snd (qualify_underlying_with_fallback sess false "SPX" Mock.start))
             (Mock.priced (Inf false)) []).
  - reflexivity.
  - vm_compute. reflexivity.
  - reflexivity.
  - reflexivity.
Defined.

(** ** The call on a steady session, and a symbol listed twice *)

(** X18. On a session that stays live and answers the same way throughout,
    [get_atm_options] returns, for each symbol in turn, the records of the
    option quotes the session gives for the contracts it accepts around the
    symbol's strike at the money, or what the open-interest call makes of
    them; a quote request that raises, or a spot price of plus infinity,
    ends the call with that error. *)
Theorem steady_session_result :
  forall sess enable_oi_streaming symbols days_to_expiry st,
    steady sess ->
    fst (get_atm_options sess enable_oi_streaming symbols days_to_expiry st)
    = expected_result sess enable_oi_streaming (datetime_now sess []) symbols.
Proof.
  intros sess enable symbols d st Hsteady. now apply steady_get_atm_options.
Qed.

Lemma steady_session_result_witness :
  let sess := Mock.session Mock.weekly_at_5000 Mock.quotes_ok in
  steady sess /\
  fst (get_atm_options sess false ["SPX"] 0 Mock.start)
  = expected_result sess false "20250117" ["SPX"] /\
  exists recs,
    expected_result sess false "20250117" ["SPX"] = Normal recs /\
    length recs = 82%nat.
Proof.
  intro sess.
  assert (steady sess) as Hs by (repeat split).
  split; [exact Hs |].
  split; [exact (steady_session_result sess false ["SPX"] 0 Mock.start Hs) |].
  eexists. split; vm_compute; reflexivity.
Defined.

